(** * Raydium swap decoder ([internal/tx_parser/raydium.go])

    A shallow embedding of the Raydium instruction parser and the
    properties of its matcher, transfer decoder, mint resolver, pairing
    loop and swap assembler.

    Go's run-time panics (an index outside a slice, a nil pointer
    dereferenced) are kept apart from the errors the functions return:
    a computation is [Done v] or [Panic], and what it delivers may
    itself be [Ok v] or [Err msg]. *)

From Stdlib Require Import ZArith NArith Lia.
From Stdlib Require Import Strings.Byte.
From stdpp Require Import base tactics decidable option list strings.

Local Open Scope Z_scope.

(** ** Computations that may panic *)

Inductive exec (A : Type) : Type :=
  | Done (a : A)
  | Panic.
Arguments Done {A} a.
Arguments Panic {A}.

#[global] Instance exec_ret : MRet exec := fun A a => Done a.
#[global] Instance exec_bind : MBind exec := fun A B f m =>
  match m with
  | Done a => f a
  | Panic => Panic
  end.
#[global] Instance exec_fmap : FMap exec := fun A B f m =>
  match m with
  | Done a => Done (f a)
  | Panic => Panic
  end.

(** [l[i]] of Go: a run-time panic when [i] is not below [len(l)]. *)
Definition index {A} (l : list A) (i : N) : exec A :=
  match l !! N.to_nat i with
  | Some a => Done a
  | None => Panic
  end.

(** [*p] of Go, also where a method with a value receiver is called on
    a pointer: a run-time panic when [p] is nil. *)
Definition deref {A} (p : option A) : exec A :=
  match p with
  | Some a => Done a
  | None => Panic
  end.

(** [l[lo:hi]] of Go on a slice whose capacity is its length. *)
Definition slice {A} (l : list A) (lo hi : nat) : exec (list A) :=
  if bool_decide (lo ≤ hi ≤ length l)%nat
  then Done (take (hi - lo) (drop lo l))
  else Panic.

(** A Go result pair [(value, error)] of which exactly one side is
    non-nil. *)
Inductive result (A : Type) : Type :=
  | Ok (a : A)
  | Err (msg : string).
Arguments Ok {A} a.
Arguments Err {A} msg.

(** A [for _, x := range l] loop threading a state through a body that
    may panic. *)
Fixpoint rangeM {A S} (body : S → A → exec S) (l : list A) (s : S) : exec S :=
  match l with
  | [] => Done s
  | x :: l' => s' ← body s x; rangeM body l' s'
  end.

(** ** Data model *)

#[global] Instance byte_eq_dec : EqDecision byte := Byte.byte_eq_dec.

(** [solana.PublicKey] is [[32]byte]; [Equals] is array equality. *)
Definition PublicKey : Type := list byte.

Definition Equals (p pb : PublicKey) : bool := bool_decide (p = pb).

(** [solana.PublicKey{}], the zero value of the array type. *)
Definition zeroPublicKey : PublicKey := replicate 32 x00.

(** [solana.CompiledInstruction]. *)
Record CompiledInstruction : Type := mkInstr {
  ProgramIDIndex : N;          (* uint16 *)
  Accounts : list N;           (* []uint16 *)
  Data : list byte
}.

(** Modelled from the spec: [TokenInfo] is declared elsewhere in the
    package; a mint, a raw amount in base units and the decimals. *)
Record TokenInfo : Type := mkTokenInfo {
  Mint : PublicKey;
  Amount : Z;                  (* uint64 *)
  Decimals : N                 (* uint8 *)
}.

(** Modelled from the spec: the enumerated protocol tag [SwapType] is
    declared elsewhere in the package.  This parser only ever writes
    [SwapTypeRaydium]; [SwapTypeOther] stands for the tags of the other
    protocols. *)
Inductive SwapType : Type :=
  | SwapTypeOther
  | SwapTypeRaydium.

(** Modelled from the spec: [SwapInfo] is declared elsewhere in the
    package; the protocol tag, the token given up and the token
    received. *)
Record SwapInfo : Type := mkSwapInfo {
  Protocol : SwapType;
  TokenIn : TokenInfo;
  TokenOut : TokenInfo
}.

(** A token-balance snapshot ([rpc.TokenBalance]), with the fields the
    parser reads: the account it belongs to (an index into the account
    table), its mint and its owner.  [Owner] is a pointer,
    [*solana.PublicKey], nil ([None]) when the record carries no
    owner. *)
Record TokenBalance : Type := mkBalance {
  AccountIndex : N;
  BalanceMint : PublicKey;
  Owner : option PublicKey
}.

(** One group of inner instructions, tagged with the index of the outer
    instruction that spawned it. *)
Record InnerInstruction : Type := mkInner {
  Index : N;                   (* uint16 *)
  Instructions : list CompiledInstruction
}.

Record TransactionMeta : Type := mkMeta {
  InnerInstructions : list InnerInstruction;
  PreTokenBalances : list TokenBalance;
  PostTokenBalances : list TokenBalance
}.

(** Modelled from the spec: [TransactionContext] is declared elsewhere
    in the package.  These are the parts the parser reads: the account
    table, the execution metadata, and the signer list, [Signers]
    standing for [ctx.Transaction.Message.Signers()]. *)
Record TransactionContext : Type := mkCtx {
  AccountKeys : list PublicKey;
  Meta : TransactionMeta;
  Signers : list PublicKey
}.

#[global] Instance TokenInfo_eq_dec : EqDecision TokenInfo.
Proof. solve_decision. Defined.

(** [uint16(i)] for a Go [int]: the low 16 bits. *)
Definition uint16 (i : Z) : N := Z.to_N (i mod 65536).

(** [uint64(b)] for a byte. *)
Definition byte_u64 (b : byte) : Z := Z.of_N (Byte.to_N b).

(** [x << k] on [uint64]: bits shifted past bit 63 are lost. *)
Definition shl64 (x k : Z) : Z := Z.shiftl x k mod 2 ^ 64.

(** [binary.LittleEndian.Uint64]. *)
Definition Uint64 (b : list byte) : exec Z :=
  _ ← index b 7;
  b0 ← index b 0; b1 ← index b 1; b2 ← index b 2; b3 ← index b 3;
  b4 ← index b 4; b5 ← index b 5; b6 ← index b 6; b7 ← index b 7;
  Done (Z.lor (Z.lor (Z.lor (Z.lor (Z.lor (Z.lor (Z.lor
          (byte_u64 b0)
          (shl64 (byte_u64 b1) 8))
          (shl64 (byte_u64 b2) 16))
          (shl64 (byte_u64 b3) 24))
          (shl64 (byte_u64 b4) 32))
          (shl64 (byte_u64 b5) 40))
          (shl64 (byte_u64 b6) 48))
          (shl64 (byte_u64 b7) 56)).

(** Sample account identifiers used by the examples below: the two
    token program identifiers as solana-go declares them
    (TokenkegQfeZyiNwAJbNbGKPFXCWuBvf9Ss623VQ5DA and
    TokenzQdBNbLqP5VEhdkAS6EPFLC1PHnBqCXEpPxuEb), and keys that
    repeat one byte. *)
Definition splToken : PublicKey :=
  [x06; xdd; xf6; xe1; xd7; x65; xa1; x93; xd9; xcb; xe1; x46; xce; xeb; x79; xac;
   x1c; xb4; x85; xed; x5f; x5b; x37; x91; x3a; x8c; xf5; x85; x7e; xff; x00; xa9].
Definition splToken2022 : PublicKey :=
  [x06; xdd; xf6; xe1; xee; x75; x8f; xde; x18; x42; x5d; xbc; xe4; x6c; xcd; xda;
   xb6; x1a; xfc; x4d; x83; xb9; x0d; x27; xfe; xbd; xf9; x28; xd8; xa1; x8b; xfc].
Definition key (b : byte) : PublicKey := replicate 32 b.

(** ** Sample transactions *)

Module Sample.
Definition mintA : PublicKey := key xaa.
Definition mintB : PublicKey := key xbb.
Definition mintC : PublicKey := key xcc.
Definition signer : PublicKey := key x51.
Definition stranger : PublicKey := key x77.

(** 0: token program, 1: token-2022 program, 2: user account of A,
    3: vault of A, 4: vault of B, 5: mint B, 6: user account of B,
    7: authority, 8: mint C. *)
Definition keyTable : list PublicKey :=
  [splToken; splToken2022; key xa1; key xa2; key xb1; mintB; key xb2;
   key xee; mintC].

Definition decimals (_ : TransactionContext) (_ : PublicKey) : N := 6%N.

(** Transfer of 100 units from account 2 to account 3. *)
Definition plain : CompiledInstruction :=
  {| ProgramIDIndex := 0; Accounts := [2; 3; 7]%N;
     Data := [x03; x64; x00; x00; x00; x00; x00; x00; x00] |}.

(** TransferChecked of 250 units of mint B (account 5). *)
Definition checked : CompiledInstruction :=
  {| ProgramIDIndex := 1; Accounts := [4; 5; 6; 7]%N;
     Data := [x0c; xfa; x00; x00; x00; x00; x00; x00; x00; x06] |}.

(** TransferChecked of 258 units of mint C (account 8). *)
Definition checkedC : CompiledInstruction :=
  {| ProgramIDIndex := 0; Accounts := [4; 8; 6; 7]%N;
     Data := [x0c; x02; x01; x00; x00; x00; x00; x00; x00; x06] |}.

(** A well-shaped transfer whose program index is outside
    [keyTable]. *)
Definition stray : CompiledInstruction :=
  {| ProgramIDIndex := 9; Accounts := [2; 3; 7; 7]%N;
     Data := [x03; x64; x00; x00; x00; x00; x00; x00; x00] |}.

Definition outer : CompiledInstruction :=
  {| ProgramIDIndex := 7; Accounts := []; Data := [] |}.

Definition context (groups : list InnerInstruction)
    (pre post : list TokenBalance) : TransactionContext :=
  {| AccountKeys := keyTable;
     Meta := {| InnerInstructions := groups;
                PreTokenBalances := pre; PostTokenBalances := post |};
     Signers := [signer] |}.

Definition userOwnsA : list TokenBalance :=
  [{| AccountIndex := 2; BalanceMint := mintA; Owner := Some signer |}].
Definition vaultOwnsA : list TokenBalance :=
  [{| AccountIndex := 2; BalanceMint := mintA; Owner := Some stranger |}].
(** Two snapshots of mint A: the vault's first, the user's second. *)
Definition vaultThenUser : list TokenBalance :=
  [{| AccountIndex := 3; BalanceMint := mintA; Owner := Some stranger |};
   {| AccountIndex := 2; BalanceMint := mintA; Owner := Some signer |}].
(** A snapshot of account 2 that records the all-zero mint. *)
Definition zeroMint : list TokenBalance :=
  [{| AccountIndex := 2; BalanceMint := zeroPublicKey; Owner := Some signer |}].

Definition tokA : TokenInfo := {| Mint := mintA; Amount := 100; Decimals := 6 |}.
Definition tokB : TokenInfo := {| Mint := mintB; Amount := 250; Decimals := 6 |}.
Definition tokC : TokenInfo := {| Mint := mintC; Amount := 258; Decimals := 6 |}.

Definition swapAB : SwapInfo :=
  {| Protocol := SwapTypeRaydium; TokenIn := tokA; TokenOut := tokB |}.
Definition swapBA : SwapInfo :=
  {| Protocol := SwapTypeRaydium; TokenIn := tokB; TokenOut := tokA |}.
Definition swapAC : SwapInfo :=
  {| Protocol := SwapTypeRaydium; TokenIn := tokA; TokenOut := tokC |}.

(** One group under outer instruction 0: a plain transfer of A, then
    a checked transfer of B; the user's account of A is owned by the
    signer. *)
Definition swapContext : TransactionContext :=
  context [mkInner 0 [plain; checked]] userOwnsA [].
(** The same, the account of A being owned by somebody else. *)
Definition vaultContext : TransactionContext :=
  context [mkInner 0 [plain; checked]] vaultOwnsA [].
(** The same, with two pre-execution snapshots of mint A. *)
Definition twoSnapshots : TransactionContext :=
  context [mkInner 0 [plain; checked]] vaultThenUser [].
(** The same, the only snapshot recording the all-zero mint. *)
Definition zeroMintContext : TransactionContext :=
  context [mkInner 0 [plain; checked]] zeroMint [].
(** The only snapshot is of account 6, which the plain transfer does
    not touch. *)
Definition otherAccount : TransactionContext :=
  context [mkInner 0 [plain; checked]]
    [{| AccountIndex := 6; BalanceMint := mintB; Owner := Some signer |}] [].
(** Groups under outer instruction 0 are empty; the transfers belong
    to outer instruction 1. *)
Definition emptyGroups : TransactionContext :=
  context [mkInner 0 []; mkInner 1 [plain; checked]; mkInner 0 []]
    userOwnsA [].
(** Transfers A, A, C, A, B in one group, then B alone in the next. *)
Definition fiveAndOne : TransactionContext :=
  context [mkInner 0 [plain; plain; checkedC; plain; checked];
           mkInner 0 [checked]] userOwnsA [].
(** Too short for a transfer, and its program index is outside
    [keyTable]. *)
Definition tiny : CompiledInstruction :=
  {| ProgramIDIndex := 9; Accounts := [2]%N; Data := [x03] |}.
(** An instruction of the program at index 7, which is no token
    program. *)
Definition memo : CompiledInstruction :=
  {| ProgramIDIndex := 7; Accounts := [2; 3; 7]%N;
     Data := [x03; x64; x00; x00; x00; x00; x00; x00; x00] |}.
(** [checked] with another decimals byte, a trailing byte and a fifth
    account reference. *)
Definition checkedWide : CompiledInstruction :=
  {| ProgramIDIndex := 1; Accounts := [4; 5; 6; 7; 2]%N;
     Data := [x0c; xfa; x00; x00; x00; x00; x00; x00; x00; x09; xff] |}.
(** [swapContext] without signers. *)
Definition unsigned : TransactionContext :=
  {| AccountKeys := keyTable;
     Meta := {| InnerInstructions := [mkInner 0 [plain; checked]];
                PreTokenBalances := userOwnsA; PostTokenBalances := [] |};
     Signers := [] |}.
(** The only snapshot names account index 12, outside [keyTable]. *)
Definition strayBalance : TransactionContext :=
  context [mkInner 0 [plain; checked]]
    [{| AccountIndex := 12; BalanceMint := mintA; Owner := Some signer |}] [].
(** A snapshot of another account before, in the post-execution
    snapshots, one of account 3, the destination of [plain]. *)
Definition missThenMatch : TransactionContext :=
  context [mkInner 0 [plain; checked]]
    [{| AccountIndex := 6; BalanceMint := mintB; Owner := Some signer |}]
    [{| AccountIndex := 3; BalanceMint := mintA; Owner := Some stranger |}].
(** A snapshot of another account before one of account 2 that records
    the all-zero mint. *)
Definition missThenZero : TransactionContext :=
  context [mkInner 0 [plain; checked]]
    [{| AccountIndex := 6; BalanceMint := mintB; Owner := Some signer |}]
    [{| AccountIndex := 2; BalanceMint := zeroPublicKey;
        Owner := Some signer |}].
(** A snapshot naming account index 12, outside [keyTable], before one
    of account 2 that records the all-zero mint. *)
Definition strayThenZero : TransactionContext :=
  context [mkInner 0 [plain; checked]]
    [{| AccountIndex := 12; BalanceMint := mintA; Owner := Some signer |};
     {| AccountIndex := 2; BalanceMint := zeroPublicKey;
        Owner := Some signer |}] [].
(** [swapContext] with a snapshot of mint A that records no owner. *)
Definition ownerless : TransactionContext :=
  context [mkInner 0 [plain; checked]]
    [{| AccountIndex := 2; BalanceMint := mintA; Owner := None |}] [].
End Sample.

Section Capability.

(** [isRaydiumProgram], declared elsewhere in the package. *)
Variable isRaydiumProgram : PublicKey → bool.

Definition CanHandle (instruction : CompiledInstruction)
    (accountKeys : list PublicKey) : exec bool :=
  programID ← index accountKeys (ProgramIDIndex instruction);
  Done (isRaydiumProgram programID).

End Capability.

Section Raydium.

(** [solana.TokenProgramID] and [solana.Token2022ProgramID], constants of
    the solana-go library, and the context's decimals lookup
    [ctx.GetMintDecimals], declared elsewhere in the package. *)
Variable TokenProgramID : PublicKey.
Variable Token2022ProgramID : PublicKey.
Variable GetMintDecimals : TransactionContext → PublicKey → N.

(** ** Instruction matcher *)

Definition isRaydiumTransfer (instr : CompiledInstruction)
    (accountKeys : list PublicKey) : exec bool :=
  if bool_decide (length (Accounts instr) < 3)%nat
     || bool_decide (length (Data instr) < 9)%nat
  then Done false
  else
    progID ← index accountKeys (ProgramIDIndex instr);
    if negb (Equals progID TokenProgramID) then Done false
    else
      d0 ← index (Data instr) 0;
      Done (bool_decide (d0 = x03)).

Definition isRaydiumTransferChecked (instr : CompiledInstruction)
    (accountKeys : list PublicKey) : exec bool :=
  if bool_decide (length (Accounts instr) < 4)%nat
     || bool_decide (length (Data instr) < 9)%nat
  then Done false
  else
    progID ← index accountKeys (ProgramIDIndex instr);
    if negb (Equals progID TokenProgramID)
       && negb (Equals progID Token2022ProgramID)
    then Done false
    else
      d0 ← index (Data instr) 0;
      Done (bool_decide (d0 = x0c)).

(** ** Mint resolver *)

Fixpoint findTokenMint_range (source dest : PublicKey)
    (accountKeys : list PublicKey) (balances : list TokenBalance)
    : exec PublicKey :=
  match balances with
  | [] => Done zeroPublicKey
  | balance :: rest =>
      accKey ← index accountKeys (AccountIndex balance);
      if Equals accKey source || Equals accKey dest
      then Done (BalanceMint balance)
      else findTokenMint_range source dest accountKeys rest
  end.

Definition findTokenMint (source dest : PublicKey)
    (ctx : TransactionContext) : exec PublicKey :=
  let balances :=
    PreTokenBalances (Meta ctx) ++ PostTokenBalances (Meta ctx) in
  findTokenMint_range source dest (AccountKeys ctx) balances.

(** ** Transfer decoder *)

Definition processTransfer (instr : CompiledInstruction)
    (ctx : TransactionContext) : exec (result TokenInfo) :=
  if bool_decide (length (Data instr) < 9)%nat
  then Done (Err "invalid transfer instruction data")
  else
    payload ← slice (Data instr) 1 9;
    amount ← Uint64 payload;
    a0 ← index (Accounts instr) 0;
    sourceAcc ← index (AccountKeys ctx) a0;
    a1 ← index (Accounts instr) 1;
    destAcc ← index (AccountKeys ctx) a1;
    mint ← findTokenMint sourceAcc destAcc ctx;
    if bool_decide (mint = zeroPublicKey)
    then Done (Err "could not determine token mint")
    else Done (Ok {| Mint := mint; Amount := amount;
                     Decimals := GetMintDecimals ctx mint |}).

Definition processTransferChecked (instr : CompiledInstruction)
    (ctx : TransactionContext) : exec (result TokenInfo) :=
  if bool_decide (length (Data instr) < 9)%nat
  then Done (Err "invalid transfer checked instruction data")
  else
    payload ← slice (Data instr) 1 9;
    amount ← Uint64 payload;
    a1 ← index (Accounts instr) 1;
    mint ← index (AccountKeys ctx) a1;
    Done (Ok {| Mint := mint; Amount := amount;
                Decimals := GetMintDecimals ctx mint |}).

(** ** Swap assembler *)

(** The zero value of [TokenInfo], which the fields of a fresh
    [SwapInfo] hold until they are assigned. *)
Definition zeroTokenInfo : TokenInfo :=
  {| Mint := zeroPublicKey; Amount := 0; Decimals := 0 |}.

(** The inner loop over the signers; the state is the record being
    filled and the [found] flag.  [owner.Equals(signer)] dereferences
    the pointer [owner] at every turn. *)
Fixpoint signers_range (owner : option PublicKey)
    (transfer1 transfer2 : TokenInfo)
    (signers : list PublicKey) (st : SwapInfo * bool)
    : exec (SwapInfo * bool) :=
  match signers with
  | [] => Done st
  | signer :: rest =>
      o ← deref owner;
      if Equals o signer
      then Done ({| Protocol := Protocol st.1;
                    TokenIn := transfer1; TokenOut := transfer2 |}, true)
      else signers_range owner transfer1 transfer2 rest st
  end.

(** The outer loop over the pre-execution balances; it stops at the
    first balance of the first transfer's mint. *)
Fixpoint balances_range (transfer1 transfer2 : TokenInfo)
    (signers : list PublicKey) (balances : list TokenBalance)
    (st : SwapInfo * bool) : exec (SwapInfo * bool) :=
  match balances with
  | [] => Done st
  | balance :: rest =>
      if Equals (BalanceMint balance) (Mint transfer1)
      then signers_range (Owner balance) transfer1 transfer2 signers st
      else balances_range transfer1 transfer2 signers rest st
  end.

Definition buildSwapInfo (transfer1 transfer2 : TokenInfo)
    (ctx : TransactionContext) : exec (result SwapInfo) :=
  if Equals (Mint transfer1) (Mint transfer2)
  then Done (Err "same token in both transfers")
  else
    let swapInfo := {| Protocol := SwapTypeRaydium;
                       TokenIn := zeroTokenInfo;
                       TokenOut := zeroTokenInfo |} in
    let signers := Signers ctx in
    st ← balances_range transfer1 transfer2 signers
           (PreTokenBalances (Meta ctx)) (swapInfo, false);
    let '(swapInfo, found) := st in
    let swapInfo :=
      if negb found
      then {| Protocol := Protocol swapInfo;
              TokenIn := transfer2; TokenOut := transfer1 |}
      else swapInfo in
    Done (Ok swapInfo).

(** ** Protocol decoder *)

(** The [switch] of the inner loop: [None] when no case applies, so that
    both [transfer] and [err] are still nil. *)
Definition decodeInner (ctx : TransactionContext)
    (innerInstr : CompiledInstruction) : exec (option (result TokenInfo)) :=
  isT ← isRaydiumTransfer innerInstr (AccountKeys ctx);
  if (isT : bool) then Some <$> processTransfer innerInstr ctx
  else
    isC ← isRaydiumTransferChecked innerInstr (AccountKeys ctx);
    if (isC : bool) then Some <$> processTransferChecked innerInstr ctx
    else Done None.

(** One turn of the loop over a group's instructions; the state is
    [swaps] and [currentTransfers].  [currentTransfers[2:]] is taken
    only where the length is 2, so it is in range and is [drop 2]. *)
Definition innerBody (ctx : TransactionContext)
    (st : list SwapInfo * list TokenInfo) (innerInstr : CompiledInstruction)
    : exec (list SwapInfo * list TokenInfo) :=
  let '(swaps, currentTransfers) := st in
  r ← decodeInner ctx innerInstr;
  match r with
  | Some (Ok transfer) =>
      let currentTransfers := currentTransfers ++ [transfer] in
      if bool_decide (length currentTransfers = 2%nat) then
        t0 ← index currentTransfers 0;
        t1 ← index currentTransfers 1;
        built ← buildSwapInfo t0 t1 ctx;
        match built with
        | Err _ => Done (swaps, drop 2 currentTransfers)
        | Ok swap => Done (swaps ++ [swap], drop 2 currentTransfers)
        end
      else Done (swaps, currentTransfers)
  | _ => Done (swaps, currentTransfers)
  end.

(** One turn of the loop over the groups of inner instructions. *)
Definition groupBody (ctx : TransactionContext) (instructionIndex : Z)
    (swaps : list SwapInfo) (innerSet : InnerInstruction)
    : exec (list SwapInfo) :=
  if bool_decide (Index innerSet = uint16 instructionIndex) then
    st ← rangeM (innerBody ctx) (Instructions innerSet) (swaps, []);
    Done st.1
  else Done swaps.

(** The loops of [ParseInstruction], up to the final test. *)
Definition collectSwaps (instructionIndex : Z) (ctx : TransactionContext)
    : exec (list SwapInfo) :=
  rangeM (groupBody ctx instructionIndex) (InnerInstructions (Meta ctx)) [].

Definition ParseInstruction (instruction : CompiledInstruction)
    (instructionIndex : Z) (ctx : TransactionContext)
    : exec (result (list SwapInfo)) :=
  swaps ← collectSwaps instructionIndex ctx;
  if bool_decide (length swaps = 0%nat)
  then Done (Err "no valid Raydium swaps found")
  else Done (Ok swaps).

(** ** Reference definitions the properties are stated against *)

(** The value of a byte string read as a little-endian number. *)
Definition le_value (bs : list byte) : Z :=
  foldr (λ b acc, byte_u64 b + 256 * acc) 0 bs.

(** The eight bytes that follow the opcode byte. *)
Definition amount_bytes (data : list byte) : list byte :=
  take 8 (drop 1 data).

(** Consecutive, non-overlapping pairs: the 1st with the 2nd, the 3rd
    with the 4th, ...; an odd last element is left out. *)
Fixpoint consecutive_pairs {A} (l : list A) : list (A * A) :=
  match l with
  | a :: b :: rest => (a, b) :: consecutive_pairs rest
  | _ => []
  end.

(** The transfers among the outcomes of a group's instructions. *)
Definition decoded (outs : list (option (result TokenInfo))) : list TokenInfo :=
  omap (λ o, match o with Some (Ok t) => Some t | _ => None end) outs.

(** The swaps among the outcomes of the assembler. *)
Definition accepted (rs : list (result SwapInfo)) : list SwapInfo :=
  omap (λ r, match r with Ok s => Some s | Err _ => None end) rs.

(** The swaps the assembler accepts among a list of pairs, handed to it
    one after the other. *)
Definition assembled (ctx : TransactionContext)
    (pairs : list (TokenInfo * TokenInfo)) : exec (list SwapInfo) :=
  rs ← mapM (λ p, buildSwapInfo p.1 p.2 ctx) pairs;
  Done (accepted rs).

(** The swaps of one group: its instructions are decoded, and the
    consecutive pairs of the decoded transfers are assembled. *)
Definition group_swaps (ctx : TransactionContext)
    (instrs : list CompiledInstruction) : exec (list SwapInfo) :=
  outs ← mapM (decodeInner ctx) instrs;
  assembled ctx (consecutive_pairs (decoded outs)).

(** The groups the decoder walks for an outer instruction index. *)
Definition matching_groups (instructionIndex : Z) (ctx : TransactionContext)
    : list InnerInstruction :=
  filter (λ g, Index g = uint16 instructionIndex)
         (InnerInstructions (Meta ctx)).

(** The account a snapshot belongs to, when its index is in the table. *)
Definition snapshot_account (ctx : TransactionContext) (b : TokenBalance)
    : option PublicKey :=
  AccountKeys ctx !! N.to_nat (AccountIndex b).

(** A snapshot of [source] or of [dest]. *)
Definition touches (ctx : TransactionContext) (source dest : PublicKey)
    (b : TokenBalance) : Prop :=
  snapshot_account ctx b = Some source ∨ snapshot_account ctx b = Some dest.

(** A snapshot of some other account of the table. *)
Definition misses (ctx : TransactionContext) (source dest : PublicKey)
    (b : TokenBalance) : Prop :=
  ∃ k, snapshot_account ctx b = Some k ∧ k ≠ source ∧ k ≠ dest.

(** The first pre-execution snapshot of [mint], if there is one. *)
Definition first_snapshot (ctx : TransactionContext) (mint : PublicKey)
    : option TokenBalance :=
  snd <$> list_find (λ b, BalanceMint b = mint) (PreTokenBalances (Meta ctx)).

(** Whether the first pre-execution snapshot of [mint] records an owner
    who is a signer; [false] when there is no snapshot of [mint] or it
    records no owner. *)
Definition first_owner_signs (ctx : TransactionContext) (mint : PublicKey)
    : bool :=
  match first_snapshot ctx mint with
  | Some b =>
      match Owner b with
      | Some o => bool_decide (o ∈ Signers ctx)
      | None => false
      end
  | None => false
  end.

(** The first pre-execution snapshot of [mint], if there is one,
    records its owner, or else the transaction has no signer to compare
    an owner with. *)
Definition owner_known (ctx : TransactionContext) (mint : PublicKey)
    : Prop :=
  ∀ b, first_snapshot ctx mint = Some b →
       is_Some (Owner b) ∨ Signers ctx = [].

(** The first pre-execution snapshot of [mint] records no owner, and
    there is a signer to compare it with. *)
Definition owner_missing (ctx : TransactionContext) (mint : PublicKey)
    : Prop :=
  ∃ b, first_snapshot ctx mint = Some b ∧ Owner b = None
       ∧ Signers ctx ≠ [].

(** Whether some pre-execution snapshot of [mint] is owned by a signer. *)
Definition some_owner_signs (ctx : TransactionContext) (mint : PublicKey)
    : Prop :=
  ∃ b o, b ∈ PreTokenBalances (Meta ctx) ∧ BalanceMint b = mint
         ∧ Owner b = Some o ∧ o ∈ Signers ctx.

(** The orientation rule read as "some snapshot of the first transfer's
    mint is owned by a signer". *)
Definition orientation_by_any_snapshot (t1 t2 : TokenInfo)
    (ctx : TransactionContext) : Prop :=
  Mint t1 ≠ Mint t2 →
  (some_owner_signs ctx (Mint t1) →
     buildSwapInfo t1 t2 ctx =
       Done (Ok {| Protocol := SwapTypeRaydium;
                   TokenIn := t1; TokenOut := t2 |}))
  ∧ (¬ some_owner_signs ctx (Mint t1) →
     buildSwapInfo t1 t2 ctx =
       Done (Ok {| Protocol := SwapTypeRaydium;
                   TokenIn := t2; TokenOut := t1 |})).

(** The mint resolver read as "the first snapshot of the source or the
    destination decides, and without one the answer is the not-found
    key", whatever the other snapshots are. *)
Definition resolver_first_match_unconditional (source dest : PublicKey)
    (ctx : TransactionContext) : Prop :=
  let balances :=
    PreTokenBalances (Meta ctx) ++ PostTokenBalances (Meta ctx) in
  (∀ l1 b l2, balances = l1 ++ b :: l2 →
     Forall (λ b', ¬ touches ctx source dest b') l1 →
     touches ctx source dest b →
     findTokenMint source dest ctx = Done (BalanceMint b))
  ∧ (Forall (λ b', ¬ touches ctx source dest b') balances →
     findTokenMint source dest ctx = Done zeroPublicKey).

(** Both classifiers return a boolean. *)
Definition classifiers_return (instr : CompiledInstruction)
    (accountKeys : list PublicKey) : Prop :=
  (∃ b, isRaydiumTransfer instr accountKeys = Done b)
  ∧ (∃ b, isRaydiumTransferChecked instr accountKeys = Done b).

(** A plain transfer the matcher accepts, with its two accounts
    resolved in the account table. *)
Definition plain_transfer_of (ctx : TransactionContext)
    (instr : CompiledInstruction) (source dest : PublicKey) : Prop :=
  isRaydiumTransfer instr (AccountKeys ctx) = Done true
  ∧ (∃ a0, Accounts instr !! 0%nat = Some a0
           ∧ AccountKeys ctx !! N.to_nat a0 = Some source)
  ∧ (∃ a1, Accounts instr !! 1%nat = Some a1
           ∧ AccountKeys ctx !! N.to_nat a1 = Some dest).

(** "A plain transfer whose first matching snapshot records the all-zero
    mint is reported as unresolved", whatever the snapshots before the
    match are. *)
Definition zero_mint_unresolved_unconditional (ctx : TransactionContext)
    (instr : CompiledInstruction) (source dest : PublicKey) : Prop :=
  ∀ l1 b l2,
    PreTokenBalances (Meta ctx) ++ PostTokenBalances (Meta ctx)
      = l1 ++ b :: l2 →
    Forall (λ b', ¬ touches ctx source dest b') l1 →
    touches ctx source dest b →
    BalanceMint b = zeroPublicKey →
    plain_transfer_of ctx instr source dest →
    processTransfer instr ctx = Done (Err "could not determine token mint").

(** An instruction too short for either classifier: both answer false
    before the account table is consulted. *)
Definition short_instruction (instr : CompiledInstruction) : Prop :=
  (length (Accounts instr) < 3)%nat ∨ (length (Data instr) < 9)%nat.

(** An instruction of a program of the table that is none of the two
    token programs, or whose opcode byte is neither 3 nor 12. *)
Definition foreign_instruction (ctx : TransactionContext)
    (instr : CompiledInstruction) : Prop :=
  ∃ progID, AccountKeys ctx !! N.to_nat (ProgramIDIndex instr) = Some progID
    ∧ ((progID ≠ TokenProgramID ∧ progID ≠ Token2022ProgramID)
       ∨ ∃ d0, Data instr !! 0%nat = Some d0 ∧ d0 ≠ x03 ∧ d0 ≠ x0c).

(** An index inside the account table. *)
Definition in_table (ctx : TransactionContext) (i : N) : Prop :=
  (N.to_nat i < length (AccountKeys ctx))%nat.

(** An instruction whose program index and account references all lie
    inside the account table. *)
Definition instr_in_table (ctx : TransactionContext)
    (instr : CompiledInstruction) : Prop :=
  in_table ctx (ProgramIDIndex instr)
  ∧ Forall (in_table ctx) (Accounts instr).

(** A context in which the instructions of the groups walked for an
    outer index, and all balance snapshots, stay inside the account
    table. *)
Definition context_in_table (instructionIndex : Z)
    (ctx : TransactionContext) : Prop :=
  Forall (λ g, Forall (instr_in_table ctx) (Instructions g))
    (matching_groups instructionIndex ctx)
  ∧ Forall (λ b, in_table ctx (AccountIndex b))
      (PreTokenBalances (Meta ctx) ++ PostTokenBalances (Meta ctx)).

(** The most swaps the groups walked for an outer index can give: half
    the instructions of each group, rounded down. *)
Definition max_swaps (instructionIndex : Z) (ctx : TransactionContext)
    : nat :=
  sum_list ((λ g, length (Instructions g) `div` 2)%nat
            <$> matching_groups instructionIndex ctx).

(** ** Basic facts *)

Lemma index_Done {A} (l : list A) (i : N) (a : A) :
  index l i = Done a ↔ l !! N.to_nat i = Some a.
Proof.
  unfold index. destruct (l !! N.to_nat i); split; intros H; congruence.
Qed.

Lemma index_Panic {A} (l : list A) (i : N) :
  index l i = Panic ↔ (length l ≤ N.to_nat i)%nat.
Proof.
  unfold index. rewrite <- lookup_ge_None.
  destruct (l !! N.to_nat i); split; intros H; congruence.
Qed.

Lemma index_returns {A} (l : list A) (i : N) :
  (∃ a, index l i = Done a) ↔ (N.to_nat i < length l)%nat.
Proof.
  rewrite <- lookup_lt_is_Some. unfold is_Some.
  split; intros [a H]; exists a; by apply index_Done.
Qed.

Lemma Equals_true (p q : PublicKey) : Equals p q = true ↔ p = q.
Proof. unfold Equals. apply bool_decide_eq_true. Qed.

Lemma Equals_false (p q : PublicKey) : Equals p q = false ↔ p ≠ q.
Proof. unfold Equals. apply bool_decide_eq_false. Qed.

(** The first data byte of an instruction that passed a length guard. *)
Lemma first_byte_present (data : list byte) :
  (9 ≤ length data)%nat → ∃ d0, data !! 0%nat = Some d0.
Proof. destruct data; simpl; [lia | eauto]. Qed.

(** ** Instruction matcher *)

(** An instruction a classifier accepts passed its length checks. *)
Lemma isRaydiumTransfer_lengths (instr : CompiledInstruction)
    (accountKeys : list PublicKey) :
  isRaydiumTransfer instr accountKeys = Done true →
  (3 ≤ length (Accounts instr))%nat ∧ (9 ≤ length (Data instr))%nat.
Proof.
  unfold isRaydiumTransfer.
  destruct (bool_decide_reflect (length (Accounts instr) < 3)%nat);
    [done |].
  destruct (bool_decide_reflect (length (Data instr) < 9)%nat);
    [done |]. lia.
Qed.

Lemma isRaydiumTransferChecked_lengths (instr : CompiledInstruction)
    (accountKeys : list PublicKey) :
  isRaydiumTransferChecked instr accountKeys = Done true →
  (4 ≤ length (Accounts instr))%nat ∧ (9 ≤ length (Data instr))%nat.
Proof.
  unfold isRaydiumTransferChecked.
  destruct (bool_decide_reflect (length (Accounts instr) < 4)%nat);
    [done |].
  destruct (bool_decide_reflect (length (Data instr) < 9)%nat);
    [done |]. lia.
Qed.

(** C4. The plain-transfer classifier answers true exactly for an
    instruction with at least 3 account references and at least 9 data
    bytes whose program, looked up in the account table, is the token
    program and whose first data byte is 3; the checked-transfer
    classifier answers true exactly for an instruction with at least 4
    account references and at least 9 data bytes whose program is the
    token program or the token-2022 program and whose first data byte is
    12. *)
Theorem classifiers_exact (instr : CompiledInstruction)
    (accountKeys : list PublicKey) :
  (isRaydiumTransfer instr accountKeys = Done true ↔
     (3 ≤ length (Accounts instr))%nat ∧ (9 ≤ length (Data instr))%nat
     ∧ accountKeys !! N.to_nat (ProgramIDIndex instr) = Some TokenProgramID
     ∧ ∃ d0, Data instr !! 0%nat = Some d0 ∧ byte_u64 d0 = 3)
  ∧ (isRaydiumTransferChecked instr accountKeys = Done true ↔
     (4 ≤ length (Accounts instr))%nat ∧ (9 ≤ length (Data instr))%nat
     ∧ (accountKeys !! N.to_nat (ProgramIDIndex instr) = Some TokenProgramID
        ∨ accountKeys !! N.to_nat (ProgramIDIndex instr)
          = Some Token2022ProgramID)
     ∧ ∃ d0, Data instr !! 0%nat = Some d0 ∧ byte_u64 d0 = 12).
Proof.
  assert (Hb3 : ∀ d, byte_u64 d = 3 ↔ d = x03).
  { intros d. split; [|by intros ->]. intros H.
    apply (inj Some). rewrite <- (Byte.of_to_N d), <- (Byte.of_to_N x03).
    f_equal. unfold byte_u64 in H. simpl. lia. }
  assert (Hb12 : ∀ d, byte_u64 d = 12 ↔ d = x0c).
  { intros d. split; [|by intros ->]. intros H.
    apply (inj Some). rewrite <- (Byte.of_to_N d), <- (Byte.of_to_N x0c).
    f_equal. unfold byte_u64 in H. simpl. lia. }
  assert (Hidx : ∀ k, index accountKeys (ProgramIDIndex instr) = Panic →
            accountKeys !! N.to_nat (ProgramIDIndex instr) ≠ Some k).
  { intros k H%index_Panic%lookup_ge_None. congruence. }
  split.
  - unfold isRaydiumTransfer.
    destruct (bool_decide_reflect (length (Accounts instr) < 3)%nat) as [Ha|Ha];
      simpl; [split; [done | lia] |].
    destruct (bool_decide_reflect (length (Data instr) < 9)%nat) as [Hd|Hd];
      simpl; [split; [done | lia] |].
    destruct (first_byte_present (Data instr)) as [d0 Hd0]; [lia |].
    assert (Hi0 : index (Data instr) 0 = Done d0) by (by apply index_Done).
    destruct (index accountKeys (ProgramIDIndex instr)) as [progID|] eqn:Hi;
      simpl; [| split; [done | intros (_ & _ & H & _); by apply Hidx in H]].
    apply index_Done in Hi. rewrite Hi.
    destruct (Equals progID TokenProgramID) eqn:He; simpl.
    + apply Equals_true in He as ->.
      rewrite Hi0. simpl.
      split.
      * intros [= H%bool_decide_eq_true]. subst d0.
        repeat split; try lia. eauto.
      * intros (_ & _ & _ & d & Hd' & Hv). f_equal.
        apply bool_decide_eq_true. apply Hb3 in Hv. congruence.
    + apply Equals_false in He. split; [done |].
      intros (_ & _ & [= ->] & _). done.
  - unfold isRaydiumTransferChecked.
    destruct (bool_decide_reflect (length (Accounts instr) < 4)%nat) as [Ha|Ha];
      simpl; [split; [done | lia] |].
    destruct (bool_decide_reflect (length (Data instr) < 9)%nat) as [Hd|Hd];
      simpl; [split; [done | lia] |].
    destruct (first_byte_present (Data instr)) as [d0 Hd0]; [lia |].
    assert (Hi0 : index (Data instr) 0 = Done d0) by (by apply index_Done).
    destruct (index accountKeys (ProgramIDIndex instr)) as [progID|] eqn:Hi;
      simpl; [| split; [done | intros (_ & _ & [H|H] & _); by apply Hidx in H]].
    apply index_Done in Hi. rewrite Hi.
    destruct (Equals progID TokenProgramID) eqn:He;
      destruct (Equals progID Token2022ProgramID) eqn:He'; simpl;
      rewrite ?Equals_true, ?Equals_false in He, He'.
    4: { split; [done |]. intros (_ & _ & [[= ->] | [= ->]] & _); done. }
    all: rewrite Hi0; simpl; split;
      [ intros [= H%bool_decide_eq_true]; subst d0;
        repeat split; try lia;
        [ first [ apply Equals_true in He; subst; eauto
                | apply Equals_true in He'; subst; eauto ]
        | eauto ]
      | intros (_ & _ & _ & d & Hd' & Hv); f_equal;
        apply bool_decide_eq_true; apply Hb12 in Hv; congruence ].
Qed.

(** C8 (as amended). A classifier returns a boolean exactly when the
    instruction fails one of the two length checks (it then answers
    false without consulting the account table) or its program index
    lies inside the account table; a well-shaped instruction whose
    program index is outside the table makes the lookup panic. *)
Theorem classifiers_return_iff (instr : CompiledInstruction)
    (accountKeys : list PublicKey) :
  ((∃ b, isRaydiumTransfer instr accountKeys = Done b) ↔
     (length (Accounts instr) < 3)%nat ∨ (length (Data instr) < 9)%nat
     ∨ (N.to_nat (ProgramIDIndex instr) < length accountKeys)%nat)
  ∧ ((∃ b, isRaydiumTransferChecked instr accountKeys = Done b) ↔
     (length (Accounts instr) < 4)%nat ∨ (length (Data instr) < 9)%nat
     ∨ (N.to_nat (ProgramIDIndex instr) < length accountKeys)%nat).
Proof.
  split.
  - unfold isRaydiumTransfer.
    destruct (bool_decide_reflect (length (Accounts instr) < 3)%nat) as [Ha|Ha];
      simpl; [split; eauto |].
    destruct (bool_decide_reflect (length (Data instr) < 9)%nat) as [Hd|Hd];
      simpl; [split; eauto |].
    destruct (first_byte_present (Data instr)) as [d0 Hd0]; [lia |].
    assert (Hi0 : index (Data instr) 0 = Done d0) by (by apply index_Done).
    destruct (index accountKeys (ProgramIDIndex instr)) as [progID|] eqn:Hi;
      simpl.
    + assert (N.to_nat (ProgramIDIndex instr) < length accountKeys)%nat
        by (apply index_returns; eauto).
      split; [auto |]. intros _.
      destruct (Equals progID TokenProgramID); simpl; [| eauto].
      rewrite Hi0. simpl. eauto.
    + apply index_Panic in Hi. split; [by intros [b Hb] | lia].
  - unfold isRaydiumTransferChecked.
    destruct (bool_decide_reflect (length (Accounts instr) < 4)%nat) as [Ha|Ha];
      simpl; [split; eauto |].
    destruct (bool_decide_reflect (length (Data instr) < 9)%nat) as [Hd|Hd];
      simpl; [split; eauto |].
    destruct (first_byte_present (Data instr)) as [d0 Hd0]; [lia |].
    assert (Hi0 : index (Data instr) 0 = Done d0) by (by apply index_Done).
    destruct (index accountKeys (ProgramIDIndex instr)) as [progID|] eqn:Hi;
      simpl.
    + assert (N.to_nat (ProgramIDIndex instr) < length accountKeys)%nat
        by (apply index_returns; eauto).
      split; [auto |]. intros _.
      destruct (negb (Equals progID TokenProgramID)
                && negb (Equals progID Token2022ProgramID)); simpl; [eauto |].
      rewrite Hi0. simpl. eauto.
    + apply index_Panic in Hi. split; [by intros [b Hb] | lia].
Qed.

(** ** Transfer decoder *)

Lemma byte_u64_range (b : byte) : 0 ≤ byte_u64 b < 256.
Proof. unfold byte_u64. pose proof (Byte.to_N_bounded b). lia. Qed.

(** Or-ing in a value shifted past the bits already set adds it. *)
Lemma lor_shiftl_add (a b k : Z) :
  0 ≤ k → 0 ≤ a < 2 ^ k → Z.lor a (Z.shiftl b k) = a + b * 2 ^ k.
Proof.
  intros Hk Ha. rewrite Z.shiftl_mul_pow2 by done.
  assert (Hland : Z.land a (b * 2 ^ k) = 0).
  { apply Z.bits_inj'. intros n Hn. rewrite Z.land_spec, Z.bits_0.
    destruct (Z.lt_ge_cases n k) as [Hlt|Hge].
    - rewrite Z.mul_pow2_bits_low by done. apply andb_false_r.
    - rewrite <- (Z.mod_small a (2 ^ k)) by done.
      rewrite Z.mod_pow2_bits_high by lia. done. }
  rewrite <- Z.lxor_lor by done. symmetry. by apply Z.add_nocarry_lxor.
Qed.

(** A byte shifted by at most 56 places stays within 64 bits. *)
Lemma shl64_byte (b : byte) (k : Z) :
  0 ≤ k ≤ 56 → shl64 (byte_u64 b) k = Z.shiftl (byte_u64 b) k.
Proof.
  intros Hk. unfold shl64. apply Z.mod_small.
  rewrite Z.shiftl_mul_pow2 by lia. pose proof (byte_u64_range b).
  assert (2 ^ k ≤ 2 ^ 56) by (apply Z.pow_le_mono_r; lia).
  assert (0 < 2 ^ k) by (apply Z.pow_pos_nonneg; lia).
  change (2 ^ 64) with (256 * 2 ^ 56). nia.
Qed.

(** [binary.LittleEndian.Uint64] reads the little-endian value of the
    first eight bytes and needs no more than eight. *)
Lemma Uint64_le_value (bs : list byte) :
  (8 ≤ length bs)%nat → Uint64 bs = Done (le_value (take 8 bs)).
Proof.
  intros Hlen.
  destruct bs as [|b0 [|b1 [|b2 [|b3 [|b4 [|b5 [|b6 [|b7 rest]]]]]]]];
    simpl in Hlen; try lia.
  unfold Uint64, index. simpl. f_equal.
  rewrite !shl64_byte by lia.
  pose proof (byte_u64_range b0). pose proof (byte_u64_range b1).
  pose proof (byte_u64_range b2). pose proof (byte_u64_range b3).
  pose proof (byte_u64_range b4). pose proof (byte_u64_range b5).
  pose proof (byte_u64_range b6). pose proof (byte_u64_range b7).
  rewrite (lor_shiftl_add _ _ 8) by lia.
  rewrite (lor_shiftl_add _ _ 16) by lia.
  rewrite (lor_shiftl_add _ _ 24) by lia.
  rewrite (lor_shiftl_add _ _ 32) by lia.
  rewrite (lor_shiftl_add _ _ 40) by lia.
  rewrite (lor_shiftl_add _ _ 48) by lia.
  rewrite (lor_shiftl_add _ _ 56) by lia.
  lia.
Qed.

Lemma le_value_range (bs : list byte) :
  0 ≤ le_value bs < 256 ^ Z.of_nat (length bs).
Proof.
  induction bs as [|b bs IH]; simpl; [lia |].
  pose proof (byte_u64_range b).
  rewrite Nat2Z.inj_succ, Z.pow_succ_r by lia. lia.
Qed.

(** The amount both decoders read from data of at least nine bytes. *)
Lemma amount_of_data (data : list byte) :
  (9 ≤ length data)%nat →
  slice data 1 9 = Done (amount_bytes data)
  ∧ Uint64 (amount_bytes data) = Done (le_value (amount_bytes data))
  ∧ length (amount_bytes data) = 8%nat.
Proof.
  intros Hlen. unfold slice, amount_bytes.
  rewrite bool_decide_eq_true_2 by lia. simpl.
  assert (Hl : length (take 8 (drop 1 data)) = 8%nat).
  { rewrite length_take, length_drop. lia. }
  repeat split; [| done].
  rewrite Uint64_le_value by lia. by rewrite take_take.
Qed.


Lemma processTransfer_amount (instr : CompiledInstruction)
    (ctx : TransactionContext) (t : TokenInfo) :
  processTransfer instr ctx = Done (Ok t) →
  (9 ≤ length (Data instr))%nat
  ∧ Amount t = le_value (amount_bytes (Data instr)).
Proof.
  unfold processTransfer.
  destruct (bool_decide_reflect (length (Data instr) < 9)%nat) as [Hd|Hd];
    [done |].
  destruct (amount_of_data (Data instr)) as (-> & Hu & _); [lia |].
  simpl. rewrite Hu. simpl. intros H. split; [lia |].
  destruct (index (Accounts instr) 0) as [a0|]; simpl in H; [| done].
  destruct (index (AccountKeys ctx) a0) as [sourceAcc|]; simpl in H; [| done].
  destruct (index (Accounts instr) 1) as [a1|]; simpl in H; [| done].
  destruct (index (AccountKeys ctx) a1) as [destAcc|]; simpl in H; [| done].
  destruct (findTokenMint sourceAcc destAcc ctx) as [mint|]; simpl in H;
    [| done].
  destruct (bool_decide (mint = zeroPublicKey)); [done |].
  by injection H as <-.
Qed.

Lemma processTransferChecked_amount (instr : CompiledInstruction)
    (ctx : TransactionContext) (t : TokenInfo) :
  processTransferChecked instr ctx = Done (Ok t) →
  (9 ≤ length (Data instr))%nat
  ∧ Amount t = le_value (amount_bytes (Data instr)).
Proof.
  unfold processTransferChecked.
  destruct (bool_decide_reflect (length (Data instr) < 9)%nat) as [Hd|Hd];
    [done |].
  destruct (amount_of_data (Data instr)) as (-> & Hu & _); [lia |].
  simpl. rewrite Hu. simpl. intros H. split; [lia |].
  destruct (index (Accounts instr) 1) as [a1|]; simpl in H; [| done].
  destruct (index (AccountKeys ctx) a1) as [mint|]; simpl in H; [| done].
  by injection H as <-.
Qed.

(** A checked transfer the matcher accepts is decoded whenever its mint
    account is in the account table. *)
Lemma processTransferChecked_returns (instr : CompiledInstruction)
    (ctx : TransactionContext) (a1 : N) (mint : PublicKey) :
  isRaydiumTransferChecked instr (AccountKeys ctx) = Done true →
  Accounts instr !! 1%nat = Some a1 →
  AccountKeys ctx !! N.to_nat a1 = Some mint →
  processTransferChecked instr ctx =
    Done (Ok {| Mint := mint;
                Amount := le_value (amount_bytes (Data instr));
                Decimals := GetMintDecimals ctx mint |}).
Proof.
  intros Hm Ha1 Hk. apply isRaydiumTransferChecked_lengths in Hm as [_ Hd].
  unfold processTransferChecked.
  rewrite bool_decide_eq_false_2 by lia.
  destruct (amount_of_data (Data instr)) as (-> & Hu & _); [lia |].
  simpl. rewrite Hu. simpl.
  rewrite (proj2 (index_Done (Accounts instr) 1 a1)) by done. simpl.
  rewrite (proj2 (index_Done (AccountKeys ctx) a1 mint)) by done. done.
Qed.

(** ** Mint resolver *)

Lemma findTokenMint_range_miss (ctx : TransactionContext)
    (source dest : PublicKey) (b : TokenBalance) (rest : list TokenBalance) :
  misses ctx source dest b →
  findTokenMint_range source dest (AccountKeys ctx) (b :: rest)
  = findTokenMint_range source dest (AccountKeys ctx) rest.
Proof.
  intros (k & Hk & Hs & Hd). simpl.
  rewrite (proj2 (index_Done (AccountKeys ctx) (AccountIndex b) k)) by done.
  simpl. apply Equals_false in Hs, Hd. by rewrite Hs, Hd.
Qed.

Lemma findTokenMint_range_touch (ctx : TransactionContext)
    (source dest : PublicKey) (b : TokenBalance) (rest : list TokenBalance) :
  touches ctx source dest b →
  findTokenMint_range source dest (AccountKeys ctx) (b :: rest)
  = Done (BalanceMint b).
Proof.
  intros [Hk | Hk]; simpl.
  - rewrite (proj2 (index_Done (AccountKeys ctx) (AccountIndex b) source))
      by done.
    simpl. by rewrite (proj2 (Equals_true source source)).
  - rewrite (proj2 (index_Done (AccountKeys ctx) (AccountIndex b) dest))
      by done.
    simpl. rewrite (proj2 (Equals_true dest dest)) by done.
    by rewrite orb_true_r.
Qed.

Lemma findTokenMint_first (ctx : TransactionContext)
    (source dest : PublicKey) (l1 l2 : list TokenBalance) (b : TokenBalance) :
  PreTokenBalances (Meta ctx) ++ PostTokenBalances (Meta ctx)
    = l1 ++ b :: l2 →
  Forall (misses ctx source dest) l1 →
  touches ctx source dest b →
  findTokenMint source dest ctx = Done (BalanceMint b).
Proof.
  unfold findTokenMint. intros -> Hl1 Hb.
  induction Hl1 as [|b' l1 Hb' _ IH].
  - by apply findTokenMint_range_touch.
  - rewrite <- app_comm_cons. by rewrite findTokenMint_range_miss.
Qed.

Lemma findTokenMint_none (ctx : TransactionContext)
    (source dest : PublicKey) :
  Forall (misses ctx source dest)
    (PreTokenBalances (Meta ctx) ++ PostTokenBalances (Meta ctx)) →
  findTokenMint source dest ctx = Done zeroPublicKey.
Proof.
  unfold findTokenMint. intros Hall.
  induction Hall as [|b l Hb _ IH]; [done |].
  by rewrite findTokenMint_range_miss.
Qed.

(** A matched plain transfer for which the resolver answers the zero
    key: the decoder reports the unresolved mint, and the loop over the
    group goes on to the next instruction with its state unchanged. *)
Lemma processTransfer_unresolved (ctx : TransactionContext)
    (instr : CompiledInstruction) (source dest : PublicKey) :
  plain_transfer_of ctx instr source dest →
  findTokenMint source dest ctx = Done zeroPublicKey →
  processTransfer instr ctx = Done (Err "could not determine token mint")
  ∧ ∀ st rest, rangeM (innerBody ctx) (instr :: rest) st
               = rangeM (innerBody ctx) rest st.
Proof.
  intros (Hm & (a0 & Ha0 & Hs) & (a1 & Ha1 & Hd)) Hz.
  assert (Hp : processTransfer instr ctx
               = Done (Err "could not determine token mint")).
  { pose proof (isRaydiumTransfer_lengths _ _ Hm) as [_ Hlen].
    unfold processTransfer. rewrite bool_decide_eq_false_2 by lia.
    destruct (amount_of_data (Data instr)) as (-> & Hu & _); [lia |].
    simpl. rewrite Hu. simpl.
    rewrite (proj2 (index_Done (Accounts instr) 0 a0)) by done. simpl.
    rewrite (proj2 (index_Done (AccountKeys ctx) a0 source)) by done. simpl.
    rewrite (proj2 (index_Done (Accounts instr) 1 a1)) by done. simpl.
    rewrite (proj2 (index_Done (AccountKeys ctx) a1 dest)) by done. simpl.
    rewrite Hz. done. }
  split; [done |]. intros [swaps cur] rest. simpl.
  unfold decodeInner. rewrite Hm. simpl. rewrite Hp. done.
Qed.

(** A matched plain transfer whose mint the resolver finds is decoded,
    with the amount read from its data. *)
Lemma processTransfer_returns (ctx : TransactionContext)
    (instr : CompiledInstruction) (source dest mint : PublicKey) :
  plain_transfer_of ctx instr source dest →
  findTokenMint source dest ctx = Done mint →
  mint ≠ zeroPublicKey →
  processTransfer instr ctx =
    Done (Ok {| Mint := mint;
                Amount := le_value (amount_bytes (Data instr));
                Decimals := GetMintDecimals ctx mint |}).
Proof.
  intros (Hm & (a0 & Ha0 & Hs) & (a1 & Ha1 & Hd)) Hf Hnz.
  pose proof (isRaydiumTransfer_lengths _ _ Hm) as [_ Hlen].
  unfold processTransfer. rewrite bool_decide_eq_false_2 by lia.
  destruct (amount_of_data (Data instr)) as (-> & Hu & _); [lia |].
  simpl. rewrite Hu. simpl.
  rewrite (proj2 (index_Done (Accounts instr) 0 a0)) by done. simpl.
  rewrite (proj2 (index_Done (AccountKeys ctx) a0 source)) by done. simpl.
  rewrite (proj2 (index_Done (Accounts instr) 1 a1)) by done. simpl.
  rewrite (proj2 (index_Done (AccountKeys ctx) a1 dest)) by done. simpl.
  rewrite Hf. simpl. by rewrite bool_decide_eq_false_2.
Qed.

(** C5. Whenever a matched plain or checked transfer instruction is
    decoded, the amount of the resulting record is the unsigned 64-bit
    little-endian value of the eight data bytes 1..8 that follow the
    opcode byte.  And such instructions are decoded: a matched plain
    transfer whose mint the resolver finds, and a matched checked
    transfer whose mint account is in the account table, give a record
    with that amount. *)
Theorem amount_little_endian (instr : CompiledInstruction)
    (ctx : TransactionContext) :
  (∀ t,
     (isRaydiumTransfer instr (AccountKeys ctx) = Done true
      ∧ processTransfer instr ctx = Done (Ok t))
     ∨ (isRaydiumTransferChecked instr (AccountKeys ctx) = Done true
        ∧ processTransferChecked instr ctx = Done (Ok t)) →
     Amount t = le_value (amount_bytes (Data instr))
     ∧ length (amount_bytes (Data instr)) = 8%nat
     ∧ 0 ≤ Amount t < 2 ^ 64)
  ∧ (∀ source dest mint,
       plain_transfer_of ctx instr source dest →
       findTokenMint source dest ctx = Done mint →
       mint ≠ zeroPublicKey →
       processTransfer instr ctx =
         Done (Ok {| Mint := mint;
                     Amount := le_value (amount_bytes (Data instr));
                     Decimals := GetMintDecimals ctx mint |}))
  ∧ (∀ a1 mint,
       isRaydiumTransferChecked instr (AccountKeys ctx) = Done true →
       Accounts instr !! 1%nat = Some a1 →
       AccountKeys ctx !! N.to_nat a1 = Some mint →
       processTransferChecked instr ctx =
         Done (Ok {| Mint := mint;
                     Amount := le_value (amount_bytes (Data instr));
                     Decimals := GetMintDecimals ctx mint |})).
Proof.
  split; [| split].
  - intros t H.
    assert (Hlen : (9 ≤ length (Data instr))%nat
                   ∧ Amount t = le_value (amount_bytes (Data instr))).
    { destruct H as [[_ H] | [_ H]];
        eauto using processTransfer_amount, processTransferChecked_amount. }
    destruct Hlen as [Hlen ->].
    destruct (amount_of_data (Data instr)) as (_ & _ & Hl); [done |].
    repeat split; try done;
      pose proof (le_value_range (amount_bytes (Data instr))) as Hr;
      rewrite Hl in Hr; change (256 ^ Z.of_nat 8) with (2 ^ 64) in Hr; lia.
  - intros source dest mint. apply processTransfer_returns.
  - intros a1 mint. apply processTransferChecked_returns.
Qed.

(** C6 (as amended). The mint resolver returns the mint of the first
    snapshot, in the pre-execution snapshots followed by the
    post-execution ones, whose account is the source or the
    destination, provided the snapshots before it belong to other
    accounts of the table; when every snapshot belongs to another
    account of the table it returns the not-found indicator, the decoder
    of a plain transfer then reports the unresolved mint, and the
    instruction loop skips that transfer and carries on. *)
Theorem mint_resolver_first_match (source dest : PublicKey)
    (ctx : TransactionContext) :
  let balances :=
    PreTokenBalances (Meta ctx) ++ PostTokenBalances (Meta ctx) in
  (∀ l1 b l2, balances = l1 ++ b :: l2 →
     Forall (misses ctx source dest) l1 → touches ctx source dest b →
     findTokenMint source dest ctx = Done (BalanceMint b))
  ∧ (Forall (misses ctx source dest) balances →
     findTokenMint source dest ctx = Done zeroPublicKey
     ∧ ∀ instr, plain_transfer_of ctx instr source dest →
         processTransfer instr ctx
           = Done (Err "could not determine token mint")
         ∧ ∀ st rest, rangeM (innerBody ctx) (instr :: rest) st
                      = rangeM (innerBody ctx) rest st).
Proof.
  simpl. split.
  - intros l1 b l2. apply findTokenMint_first.
  - intros Hall. pose proof (findTokenMint_none _ _ _ Hall) as Hz.
    split; [done |]. intros instr Hinstr.
    by apply (processTransfer_unresolved ctx instr source dest).
Qed.

(** C10 (as amended). The not-found indicator of the mint resolver is
    the all-zero key.  So a plain transfer whose first matching snapshot
    records the all-zero mint, the snapshots before it belonging to
    other accounts of the table, is reported as unresolved and skipped
    by the instruction loop, and its decoding gives the very result it
    gives in a context, over the same account table, where every
    snapshot belongs to another account of the table. *)
Theorem zero_mint_is_unresolved (source dest : PublicKey)
    (ctx : TransactionContext) :
  let snapshots c :=
    PreTokenBalances (Meta c) ++ PostTokenBalances (Meta c) in
  (Forall (misses ctx source dest) (snapshots ctx) →
     findTokenMint source dest ctx = Done zeroPublicKey
     ∧ zeroPublicKey = replicate 32 x00)
  ∧ (∀ l1 b l2 instr,
       snapshots ctx = l1 ++ b :: l2 →
       Forall (misses ctx source dest) l1 → touches ctx source dest b →
       BalanceMint b = zeroPublicKey →
       plain_transfer_of ctx instr source dest →
       processTransfer instr ctx
         = Done (Err "could not determine token mint")
       ∧ (∀ st rest, rangeM (innerBody ctx) (instr :: rest) st
                     = rangeM (innerBody ctx) rest st)
       ∧ ∀ ctx', AccountKeys ctx' = AccountKeys ctx →
           Forall (misses ctx' source dest) (snapshots ctx') →
           processTransfer instr ctx' = processTransfer instr ctx).
Proof.
  simpl. split.
  - intros Hall. split; [by apply findTokenMint_none | done].
  - intros l1 b l2 instr Hsplit Hl1 Hb Hzero Hinstr.
    assert (Hz : findTokenMint source dest ctx = Done zeroPublicKey).
    { rewrite <- Hzero. by apply (findTokenMint_first ctx _ _ l1 l2). }
    destruct (processTransfer_unresolved ctx instr source dest)
      as [Hp Hskip]; [done.. |].
    repeat split; [done.. |].
    intros ctx' Hkeys Hall. rewrite Hp.
    apply (processTransfer_unresolved ctx' instr source dest).
    + unfold plain_transfer_of in *. by rewrite Hkeys.
    + by apply findTokenMint_none.
Qed.

(** ** General facts about computations that may panic *)

Lemma bind_Done_inv {A B} (m : exec A) (f : A → exec B) (b : B) :
  m ≫= f = Done b → ∃ a, m = Done a ∧ f a = Done b.
Proof. destruct m as [a|]; [eauto | done]. Qed.

Lemma rangeM_app {A S} (body : S → A → exec S) (l1 l2 : list A) (s : S) :
  rangeM body (l1 ++ l2) s = s' ← rangeM body l1 s; rangeM body l2 s'.
Proof.
  revert s. induction l1 as [|x l1 IH]; intros s; simpl; [done |].
  destruct (body s x) as [s'|]; simpl; [apply IH | done].
Qed.

Lemma mapM_Done_cons {A B} (f : A → exec B) (x : A) (l : list A)
    (ys : list B) :
  mapM f (x :: l) = Done ys →
  ∃ y k, f x = Done y ∧ mapM f l = Done k ∧ ys = y :: k.
Proof.
  simpl. destruct (f x) as [y|]; simpl; [| done].
  destruct (mapM f l) as [k|]; simpl; [| done].
  intros [= <-]. eauto.
Qed.

Lemma mapM_Done_length {A B} (f : A → exec B) (l : list A) (ys : list B) :
  mapM f l = Done ys → length ys = length l.
Proof.
  revert ys. induction l as [|x l IH]; intros ys.
  - by intros [= <-].
  - intros (y & k & _ & Hk & ->)%mapM_Done_cons. simpl. f_equal. by apply IH.
Qed.

Lemma mapM_Done_elem {A B} (f : A → exec B) (l : list A) (ys : list B)
    (y : B) :
  mapM f l = Done ys → y ∈ ys → ∃ x, x ∈ l ∧ f x = Done y.
Proof.
  revert ys. induction l as [|x l IH]; intros ys.
  - intros [= <-] Hy. by apply elem_of_nil in Hy.
  - intros (y' & k & Hx & Hk & ->)%mapM_Done_cons [-> | Hy]%elem_of_cons.
    + exists x. split; [apply elem_of_cons; auto | done].
    + destruct (IH k Hk Hy) as (x' & Hin & Hx').
      exists x'. split; [apply elem_of_cons; auto | done].
Qed.

Lemma mapM_returns {A B} (f : A → exec B) (l : list A) :
  Forall (λ x, ∃ y, f x = Done y) l → ∃ ys, mapM f l = Done ys.
Proof.
  induction 1 as [|x l [y Hy] _ [k Hk]]; simpl; [by eexists |].
  rewrite Hy. simpl. rewrite Hk. simpl. by eexists.
Qed.

Lemma omap_length_le {A B} (f : A → option B) (l : list A) :
  (length (omap f l) ≤ length l)%nat.
Proof.
  induction l as [|x l IH]; csimpl; [lia |].
  destruct (f x); csimpl; lia.
Qed.

(** ** Swap assembler *)

(** The loop over the signers for a snapshot that records its owner. *)
Lemma signers_range_owner (o : PublicKey) (t1 t2 : TokenInfo)
    (signers : list PublicKey) (st : SwapInfo * bool) :
  signers_range (Some o) t1 t2 signers st =
    Done (if bool_decide (o ∈ signers)
          then ({| Protocol := Protocol st.1;
                   TokenIn := t1; TokenOut := t2 |}, true)
          else st).
Proof.
  induction signers as [|signer rest IH]; simpl; [done |].
  destruct (Equals o signer) eqn:He.
  - apply Equals_true in He as ->.
    rewrite bool_decide_eq_true_2; [done | apply elem_of_cons; auto].
  - apply Equals_false in He. rewrite IH.
    destruct (bool_decide_reflect (o ∈ rest)) as [Hin|Hin].
    + rewrite bool_decide_eq_true_2; [done | apply elem_of_cons; auto].
    + rewrite bool_decide_eq_false_2; [done |].
      rewrite elem_of_cons. tauto.
Qed.

Lemma balances_range_spec (t1 t2 : TokenInfo) (signers : list PublicKey)
    (balances : list TokenBalance) (st : SwapInfo * bool) :
  balances_range t1 t2 signers balances st =
    match list_find (λ b, BalanceMint b = Mint t1) balances with
    | Some (_, b) => signers_range (Owner b) t1 t2 signers st
    | None => Done st
    end.
Proof.
  induction balances as [|b rest IH]; simpl; [done |].
  unfold Equals. destruct (decide (BalanceMint b = Mint t1)) as [Hb|Hb].
  - by rewrite bool_decide_eq_true_2.
  - rewrite bool_decide_eq_false_2 by done. rewrite IH.
    by destruct (list_find _ rest) as [[i b']|].
Qed.

(** The outcome of the assembler on two transfers of distinct mints. *)
Lemma buildSwapInfo_spec (t1 t2 : TokenInfo) (ctx : TransactionContext) :
  Mint t1 ≠ Mint t2 →
  buildSwapInfo t1 t2 ctx =
    match first_snapshot ctx (Mint t1) with
    | None =>
        Done (Ok {| Protocol := SwapTypeRaydium;
                    TokenIn := t2; TokenOut := t1 |})
    | Some b =>
        match Signers ctx with
        | [] =>
            Done (Ok {| Protocol := SwapTypeRaydium;
                        TokenIn := t2; TokenOut := t1 |})
        | _ :: _ =>
            match Owner b with
            | None => Panic
            | Some o =>
                Done (Ok (if bool_decide (o ∈ Signers ctx)
                          then {| Protocol := SwapTypeRaydium;
                                  TokenIn := t1; TokenOut := t2 |}
                          else {| Protocol := SwapTypeRaydium;
                                  TokenIn := t2; TokenOut := t1 |}))
            end
        end
    end.
Proof.
  intros Hne. unfold buildSwapInfo, first_snapshot.
  rewrite (proj2 (Equals_false _ _)) by done.
  rewrite balances_range_spec.
  destruct (list_find _ (PreTokenBalances (Meta ctx))) as [[i b]|];
    simpl; [| done].
  destruct (Signers ctx) as [|signer rest] eqn:Hs; simpl; [done |].
  destruct (Owner b) as [o|]; simpl; [| done].
  rewrite <- Hs.
  assert (Hr : signers_range (Some o) t1 t2 (Signers ctx)
                 ({| Protocol := SwapTypeRaydium; TokenIn := zeroTokenInfo;
                     TokenOut := zeroTokenInfo |}, false)
               = Done (if bool_decide (o ∈ Signers ctx)
                       then ({| Protocol := SwapTypeRaydium;
                                TokenIn := t1; TokenOut := t2 |}, true)
                       else ({| Protocol := SwapTypeRaydium;
                                TokenIn := zeroTokenInfo;
                                TokenOut := zeroTokenInfo |}, false)))
    by apply signers_range_owner.
  rewrite Hs in Hr at 1. simpl in Hr. rewrite Hr.
  by destruct (bool_decide (o ∈ Signers ctx)).
Qed.

(** What the assembler builds from two transfers of distinct mints when
    the owner it compares is recorded. *)
Lemma buildSwapInfo_distinct (t1 t2 : TokenInfo) (ctx : TransactionContext) :
  Mint t1 ≠ Mint t2 →
  owner_known ctx (Mint t1) →
  buildSwapInfo t1 t2 ctx =
    Done (Ok (if first_owner_signs ctx (Mint t1)
              then {| Protocol := SwapTypeRaydium;
                      TokenIn := t1; TokenOut := t2 |}
              else {| Protocol := SwapTypeRaydium;
                      TokenIn := t2; TokenOut := t1 |})).
Proof.
  intros Hne Hk. rewrite buildSwapInfo_spec by done.
  unfold first_owner_signs, owner_known in *.
  destruct (first_snapshot ctx (Mint t1)) as [b|]; [| done].
  destruct (Hk b eq_refl) as [[o Ho] | Hs].
  - rewrite Ho. destruct (Signers ctx) eqn:Hs; [| done].
    by rewrite bool_decide_eq_false_2 by apply not_elem_of_nil.
  - rewrite Hs. destruct (Owner b); [| done].
    by rewrite bool_decide_eq_false_2 by apply not_elem_of_nil.
Qed.

(** With distinct mints, a first snapshot without owner and a signer to
    compare it with, the assembler panics. *)
Lemma buildSwapInfo_ownerless (t1 t2 : TokenInfo) (ctx : TransactionContext) :
  Mint t1 ≠ Mint t2 →
  owner_missing ctx (Mint t1) →
  buildSwapInfo t1 t2 ctx = Panic.
Proof.
  intros Hne (b & Hb & Ho & Hs). rewrite buildSwapInfo_spec by done.
  rewrite Hb, Ho. by destruct (Signers ctx).
Qed.

Lemma buildSwapInfo_same (t1 t2 : TokenInfo) (ctx : TransactionContext) :
  Mint t1 = Mint t2 →
  buildSwapInfo t1 t2 ctx = Done (Err "same token in both transfers").
Proof.
  intros He. unfold buildSwapInfo. by rewrite (proj2 (Equals_true _ _)).
Qed.

(** The two sides of a swap the assembler returns. *)
Lemma buildSwapInfo_Ok_sides (t1 t2 : TokenInfo) (ctx : TransactionContext)
    (s : SwapInfo) :
  buildSwapInfo t1 t2 ctx = Done (Ok s) →
  Mint t1 ≠ Mint t2
  ∧ Protocol s = SwapTypeRaydium
  ∧ ((TokenIn s = t1 ∧ TokenOut s = t2) ∨ (TokenIn s = t2 ∧ TokenOut s = t1)).
Proof.
  destruct (decide (Mint t1 = Mint t2)) as [He|Hne].
  - by rewrite buildSwapInfo_same.
  - rewrite buildSwapInfo_spec by done. intros H. split; [done |].
    destruct (first_snapshot ctx (Mint t1)) as [b|];
      [destruct (Signers ctx);
         [| destruct (Owner b) as [o|];
            [destruct (bool_decide (o ∈ _)) |]] |];
      try done; injection H as <-; simpl; auto.
Qed.

(** A swap the assembler returns has two distinct mints. *)
Lemma buildSwapInfo_Ok_mints (t1 t2 : TokenInfo) (ctx : TransactionContext)
    (s : SwapInfo) :
  buildSwapInfo t1 t2 ctx = Done (Ok s) →
  Mint (TokenIn s) ≠ Mint (TokenOut s).
Proof.
  intros (Hne & _ & [[-> ->] | [-> ->]])%buildSwapInfo_Ok_sides; congruence.
Qed.

(** C9. The outcomes of the swap assembler.  It returns an error
    exactly when the two transfers have the same mint, and a swap it
    returns is a Raydium record whose two sides are the two transfers,
    of distinct mints, in one order or the other.  But it does not
    always return: on two transfers of distinct mints it panics, by
    dereferencing a nil owner, exactly when the first pre-execution
    snapshot of the first transfer's mint records no owner and the
    transaction has a signer. *)
Theorem assembler_outcomes (t1 t2 : TokenInfo) (ctx : TransactionContext) :
  ((∃ msg, buildSwapInfo t1 t2 ctx = Done (Err msg)) ↔ Mint t1 = Mint t2)
  ∧ (buildSwapInfo t1 t2 ctx = Panic ↔
       Mint t1 ≠ Mint t2 ∧ owner_missing ctx (Mint t1))
  ∧ (Mint t1 ≠ Mint t2 → ¬ owner_missing ctx (Mint t1) →
       ∃ s, buildSwapInfo t1 t2 ctx = Done (Ok s)
            ∧ Protocol s = SwapTypeRaydium
            ∧ ((TokenIn s = t1 ∧ TokenOut s = t2)
               ∨ (TokenIn s = t2 ∧ TokenOut s = t1))).
Proof.
  assert (Hcases : Mint t1 ≠ Mint t2 →
            owner_missing ctx (Mint t1) ∨ owner_known ctx (Mint t1)).
  { intros _. unfold owner_missing, owner_known.
    destruct (first_snapshot ctx (Mint t1)) as [b|]; [| by right].
    destruct (Owner b) as [o|] eqn:Ho.
    - right. intros b' [= <-]. left. by rewrite Ho.
    - destruct (Signers ctx) eqn:Hs.
      + right. intros b' _. by right.
      + left. by exists b. }
  split; [| split].
  - split.
    + intros [msg Hmsg].
      destruct (decide (Mint t1 = Mint t2)) as [|Hne]; [done |].
      destruct (Hcases Hne) as [Hm | Hk].
      * by rewrite buildSwapInfo_ownerless in Hmsg.
      * by rewrite buildSwapInfo_distinct in Hmsg.
    + intros He. eexists. by apply buildSwapInfo_same.
  - split.
    + intros Hp. destruct (decide (Mint t1 = Mint t2)) as [He|Hne].
      { by rewrite buildSwapInfo_same in Hp. }
      split; [done |]. destruct (Hcases Hne) as [Hm | Hk]; [done |].
      by rewrite buildSwapInfo_distinct in Hp.
    + intros [Hne Hm]. by apply buildSwapInfo_ownerless.
  - intros Hne Hnm. destruct (Hcases Hne) as [Hm | Hk]; [done |].
    rewrite buildSwapInfo_distinct by done.
    eexists. split; [done |].
    destruct (first_owner_signs ctx (Mint t1)); simpl; auto.
Qed.

(** C3 (as amended). For two transfers of distinct mints the
    orientation is decided by the first pre-execution snapshot whose
    mint is the first transfer's mint, where its owner is recorded (or
    the transaction has no signer): when that owner is among the
    signers the swap goes from the first transfer to the second; when
    there is no such snapshot, or the owner of the first one is not a
    signer, it goes from the second transfer to the first.  Later
    snapshots of the same mint are not looked at. *)
Theorem orientation_by_first_snapshot (t1 t2 : TokenInfo)
    (ctx : TransactionContext) :
  Mint t1 ≠ Mint t2 →
  owner_known ctx (Mint t1) →
  (first_owner_signs ctx (Mint t1) = true →
     buildSwapInfo t1 t2 ctx =
       Done (Ok {| Protocol := SwapTypeRaydium;
                   TokenIn := t1; TokenOut := t2 |}))
  ∧ (first_owner_signs ctx (Mint t1) = false →
     buildSwapInfo t1 t2 ctx =
       Done (Ok {| Protocol := SwapTypeRaydium;
                   TokenIn := t2; TokenOut := t1 |}))
  ∧ (first_owner_signs ctx (Mint t1) = true ↔
     ∃ l1 b l2 o, PreTokenBalances (Meta ctx) = l1 ++ b :: l2
                  ∧ Forall (λ b', BalanceMint b' ≠ Mint t1) l1
                  ∧ BalanceMint b = Mint t1
                  ∧ Owner b = Some o ∧ o ∈ Signers ctx).
Proof.
  intros Hne Hk. rewrite buildSwapInfo_distinct by done.
  split; [by intros -> | split; [by intros -> |]].
  unfold first_owner_signs, first_snapshot. split.
  - destruct (list_find _ _) as [[i b]|] eqn:Hf; simpl; [| done].
    destruct (Owner b) as [o|] eqn:Ho; [| done].
    intros Hs%bool_decide_eq_true.
    apply list_find_Some in Hf as (Hi & Hb & Hbefore).
    exists (take i (PreTokenBalances (Meta ctx))), b,
      (drop (S i) (PreTokenBalances (Meta ctx))), o.
    split; [by rewrite take_drop_middle by done |].
    split; [| done].
    apply Forall_forall. intros b' Hin.
    apply list_elem_of_lookup in Hin as [j Hj].
    pose proof (lookup_lt_Some _ _ _ Hj) as Hlt.
    rewrite length_take in Hlt.
    rewrite lookup_take_lt in Hj by lia.
    apply (Hbefore j b'); [done | lia].
  - intros (l1 & b & l2 & o & Hsplit & Hl1 & Hb & Ho & Hs).
    assert (Hf : list_find (λ b, BalanceMint b = Mint t1)
                   (PreTokenBalances (Meta ctx)) = Some (length l1, b)).
    { apply list_find_Some. rewrite Hsplit. split; [| split; [done |]].
      - by rewrite list_lookup_middle.
      - intros j b' Hj Hlt. rewrite lookup_app_l in Hj by done.
        by apply (proj1 (Forall_lookup _ l1) Hl1 j b'). }
    rewrite Hf. simpl. rewrite Ho. by apply bool_decide_eq_true.
Qed.

(** ** Transfer pairer *)

Lemma assembled_cons (ctx : TransactionContext) (a b : TokenInfo)
    (ps : list (TokenInfo * TokenInfo)) :
  assembled ctx ((a, b) :: ps) =
    r ← buildSwapInfo a b ctx;
    sw ← assembled ctx ps;
    Done (match r with Ok s => s :: sw | Err _ => sw end).
Proof.
  unfold assembled. simpl.
  destruct (buildSwapInfo a b ctx) as [r|]; simpl; [| done].
  destruct (mapM _ ps) as [rs|]; simpl; [| done].
  by destruct r.
Qed.

(** The instruction loop, started with at most one pending transfer:
    the swaps it adds are those assembled from the consecutive pairs of
    the pending transfer followed by the group's decoded transfers, and
    it panics when a decoding or an assembly does. *)
Lemma inner_loop_pairs (ctx : TransactionContext)
    (instrs : list CompiledInstruction) (swaps : list SwapInfo)
    (cur : list TokenInfo) :
  (length cur ≤ 1)%nat →
  fst <$> rangeM (innerBody ctx) instrs (swaps, cur) =
    outs ← mapM (decodeInner ctx) instrs;
    sw ← assembled ctx (consecutive_pairs (cur ++ decoded outs));
    Done (swaps ++ sw).
Proof.
  revert swaps cur. induction instrs as [|instr instrs IH]; intros swaps cur Hc.
  - simpl. destruct cur as [|c [|]]; simpl in *; try lia;
      by rewrite app_nil_r.
  - simpl. destruct (decodeInner ctx instr) as [r|]; [| done]. simpl.
    destruct r as [[t|msg]|]; simpl;
      [| rewrite IH by done; by destruct (mapM (decodeInner ctx) instrs)..].
    destruct cur as [|c [|]]; simpl in Hc; try lia; simpl.
    + rewrite IH by (simpl; lia).
      by destruct (mapM (decodeInner ctx) instrs).
    + destruct (buildSwapInfo c t ctx) as [[swap|msg]|] eqn:Hb; simpl.
      * rewrite IH by (simpl; lia).
        destruct (mapM (decodeInner ctx) instrs) as [outs|]; simpl; [| done].
        rewrite assembled_cons, Hb. simpl.
        destruct (assembled ctx _) as [sw|]; simpl; [| done].
        by rewrite <- app_assoc.
      * rewrite IH by (simpl; lia).
        destruct (mapM (decodeInner ctx) instrs) as [outs|]; simpl; [| done].
        rewrite assembled_cons, Hb. simpl.
        by destruct (assembled ctx _) as [sw|].
      * destruct (mapM (decodeInner ctx) instrs) as [outs|]; simpl; [| done].
        by rewrite assembled_cons, Hb.
Qed.

(** One turn of the loop over the groups. *)
Lemma groupBody_pairs (ctx : TransactionContext) (instructionIndex : Z)
    (swaps : list SwapInfo) (g : InnerInstruction) :
  groupBody ctx instructionIndex swaps g =
    if bool_decide (Index g = uint16 instructionIndex)
    then sw ← group_swaps ctx (Instructions g); Done (swaps ++ sw)
    else Done swaps.
Proof.
  unfold groupBody, group_swaps.
  destruct (bool_decide (Index g = uint16 instructionIndex)); [| done].
  pose proof (inner_loop_pairs ctx (Instructions g) swaps []) as H.
  simpl in H. specialize (H (Nat.le_0_l 1)).
  destruct (rangeM (innerBody ctx) (Instructions g) (swaps, []))
    as [[s c]|]; simpl in *.
  - destruct (mapM (decodeInner ctx) (Instructions g)) as [outs|];
      simpl in *; [| done].
    by destruct (assembled ctx _).
  - destruct (mapM (decodeInner ctx) (Instructions g)) as [outs|];
      simpl in *; [| done].
    by destruct (assembled ctx _).
Qed.

(** The loop over the groups, started from any list of swaps. *)
Lemma groups_loop_pairs (ctx : TransactionContext) (instructionIndex : Z)
    (groups : list InnerInstruction) (swaps : list SwapInfo) :
  rangeM (groupBody ctx instructionIndex) groups swaps =
    swapss ← mapM (λ g, group_swaps ctx (Instructions g))
             (filter (λ g, Index g = uint16 instructionIndex) groups);
    Done (swaps ++ concat swapss).
Proof.
  revert swaps. induction groups as [|g groups IH]; intros swaps.
  - simpl. by rewrite app_nil_r.
  - simpl. rewrite groupBody_pairs, filter_cons.
    destruct (decide (Index g = uint16 instructionIndex)) as [Hg|Hg].
    + rewrite bool_decide_eq_true_2 by done. simpl.
      destruct (group_swaps ctx (Instructions g)) as [sw|]; [| done].
      simpl. rewrite IH.
      destruct (mapM _ (filter _ groups)) as [swapss|]; [| done].
      simpl. by rewrite <- app_assoc.
    + rewrite bool_decide_eq_false_2 by done. simpl. apply IH.
Qed.

(** For an outer index that fits 16 bits the groups walked are those
    tagged with that very index. *)
Lemma matching_groups_in_range (instructionIndex : Z)
    (ctx : TransactionContext) :
  0 ≤ instructionIndex < 65536 →
  matching_groups instructionIndex ctx =
    filter (λ g, Z.of_N (Index g) = instructionIndex)
           (InnerInstructions (Meta ctx)).
Proof.
  intros Hr. unfold matching_groups. apply list_filter_iff. intros g.
  unfold uint16. rewrite Z.mod_small by done. lia.
Qed.

(** C1. The swaps the decoder collects are, group after group among the
    groups tagged with the outer instruction index, those the assembler
    accepts among the consecutive non-overlapping pairs of the group's
    decoded transfers (1st with 2nd, 3rd with 4th, ...): a rejected pair
    contributes nothing and frees neither of its transfers for another
    pair, and a group's odd last transfer is paired with nothing, also
    not with a transfer of the next group.  The decoder panics exactly
    when, in one of these groups, decoding an instruction or assembling
    one of these pairs does. *)
Theorem pairing_is_consecutive (instructionIndex : Z)
    (ctx : TransactionContext) :
  collectSwaps instructionIndex ctx =
    swapss ← mapM (λ g,
                outs ← mapM (decodeInner ctx) (Instructions g);
                assembled ctx (consecutive_pairs (decoded outs)))
             (matching_groups instructionIndex ctx);
    Done (concat swapss).
Proof.
  unfold collectSwaps, matching_groups. by rewrite groups_loop_pairs.
Qed.

(** A swap among those assembled from a list of pairs was built from
    one of the pairs. *)
Lemma assembled_elem (ctx : TransactionContext)
    (pairs : list (TokenInfo * TokenInfo)) (sw : list SwapInfo)
    (s : SwapInfo) :
  assembled ctx pairs = Done sw → s ∈ sw →
  ∃ a b, (a, b) ∈ pairs ∧ buildSwapInfo a b ctx = Done (Ok s).
Proof.
  unfold assembled. intros (rs & Hm & [= <-])%bind_Done_inv Hs.
  apply list_elem_of_omap in Hs as ([s'|msg] & Hr & Hs); [| done].
  injection Hs as ->.
  destruct (mapM_Done_elem _ _ _ _ Hm Hr) as ([a b] & Hin & Hb).
  by exists a, b.
Qed.

Lemma assembled_length (ctx : TransactionContext)
    (pairs : list (TokenInfo * TokenInfo)) (sw : list SwapInfo) :
  assembled ctx pairs = Done sw → (length sw ≤ length pairs)%nat.
Proof.
  unfold assembled. intros (rs & Hm & [= <-])%bind_Done_inv.
  rewrite <- (mapM_Done_length _ _ _ Hm). apply omap_length_le.
Qed.

Lemma ParseInstruction_Ok (instruction : CompiledInstruction)
    (instructionIndex : Z) (ctx : TransactionContext) (swaps : list SwapInfo) :
  ParseInstruction instruction instructionIndex ctx = Done (Ok swaps) ↔
  collectSwaps instructionIndex ctx = Done swaps ∧ swaps ≠ [].
Proof.
  unfold ParseInstruction.
  destruct (collectSwaps instructionIndex ctx) as [[|s l]|]; simpl.
  - split; [done |]. intros [[= <-] Hne]. done.
  - split; [by intros [= <-] | by intros [[= <-] _]].
  - split; [done | by intros [? _]].
Qed.

Lemma ParseInstruction_Err (instruction : CompiledInstruction)
    (instructionIndex : Z) (ctx : TransactionContext) (msg : string) :
  ParseInstruction instruction instructionIndex ctx = Done (Err msg) ↔
  collectSwaps instructionIndex ctx = Done []
  ∧ msg = "no valid Raydium swaps found".
Proof.
  unfold ParseInstruction.
  destruct (collectSwaps instructionIndex ctx) as [[|s l]|]; simpl.
  - split; [by intros [= <-] | by intros [_ ->]].
  - split; [done | by intros [? _]].
  - split; [done | by intros [? _]].
Qed.

(** The swaps of a successful decode, group by group. *)
Lemma ParseInstruction_Ok_groups (instruction : CompiledInstruction)
    (instructionIndex : Z) (ctx : TransactionContext) (swaps : list SwapInfo) :
  ParseInstruction instruction instructionIndex ctx = Done (Ok swaps) →
  ∃ swapss,
    mapM (λ g, group_swaps ctx (Instructions g))
      (matching_groups instructionIndex ctx) = Done swapss
    ∧ swaps = concat swapss.
Proof.
  intros [Hc _]%ParseInstruction_Ok.
  unfold collectSwaps in Hc. rewrite groups_loop_pairs in Hc.
  fold (matching_groups instructionIndex ctx) in Hc.
  destruct (mapM _ (matching_groups instructionIndex ctx)) as [swapss|];
    [| done].
  simpl in Hc. injection Hc as <-. by exists swapss.
Qed.

(** A swap of a successful decode was built from a pair of transfers
    decoded in one matching group. *)
Lemma ParseInstruction_Ok_elem (instruction : CompiledInstruction)
    (instructionIndex : Z) (ctx : TransactionContext)
    (swaps : list SwapInfo) (s : SwapInfo) :
  ParseInstruction instruction instructionIndex ctx = Done (Ok swaps) →
  s ∈ swaps →
  ∃ g outs a b,
    g ∈ matching_groups instructionIndex ctx
    ∧ mapM (decodeInner ctx) (Instructions g) = Done outs
    ∧ (a, b) ∈ consecutive_pairs (decoded outs)
    ∧ buildSwapInfo a b ctx = Done (Ok s).
Proof.
  intros (swapss & Hm & ->)%ParseInstruction_Ok_groups Hs.
  apply list_elem_of_In, in_concat in Hs as (sw & Hsw & Hs).
  apply list_elem_of_In in Hsw, Hs.
  destruct (mapM_Done_elem _ _ _ _ Hm Hsw) as (g & Hg & Hgs).
  unfold group_swaps in Hgs.
  apply bind_Done_inv in Hgs as (outs & Hout & Hasm).
  destruct (assembled_elem _ _ _ _ Hasm Hs) as (a & b & Hp & Hb).
  by exists g, outs, a, b.
Qed.

(** C2. In every swap record the decode entry point returns, the mint
    of [TokenIn] differs from the mint of [TokenOut]. *)
Theorem returned_swaps_have_distinct_mints (instruction : CompiledInstruction)
    (instructionIndex : Z) (ctx : TransactionContext)
    (swaps : list SwapInfo) (s : SwapInfo) :
  ParseInstruction instruction instructionIndex ctx = Done (Ok swaps) →
  s ∈ swaps →
  Mint (TokenIn s) ≠ Mint (TokenOut s).
Proof.
  intros Hp Hs.
  destruct (ParseInstruction_Ok_elem _ _ _ _ _ Hp Hs)
    as (g & outs & a & b & _ & _ & _ & Hb).
  by eapply buildSwapInfo_Ok_mints.
Qed.

(** C7. The decode entry point returns its error exactly when the
    collected swap sequence is empty, and a sequence it returns is never
    empty; in particular it returns the error, and neither panics nor
    succeeds, when every group tagged with the outer instruction index
    is empty, which covers the case of no such group. *)
Theorem no_swaps_error_iff (instruction : CompiledInstruction)
    (instructionIndex : Z) (ctx : TransactionContext) :
  (ParseInstruction instruction instructionIndex ctx
     = Done (Err "no valid Raydium swaps found")
   ↔ collectSwaps instructionIndex ctx = Done [])
  ∧ (∀ msg, ParseInstruction instruction instructionIndex ctx = Done (Err msg)
            → msg = "no valid Raydium swaps found")
  ∧ (∀ swaps, ParseInstruction instruction instructionIndex ctx
                = Done (Ok swaps)
              → swaps ≠ [] ∧ collectSwaps instructionIndex ctx = Done swaps)
  ∧ (Forall (λ g, Instructions g = [])
       (matching_groups instructionIndex ctx)
     → ParseInstruction instruction instructionIndex ctx
       = Done (Err "no valid Raydium swaps found")).
Proof.
  split; [| split; [| split]].
  - rewrite ParseInstruction_Err. split; [by intros [? _] | done].
  - by intros msg [_ ->]%ParseInstruction_Err.
  - intros swaps [? ?]%ParseInstruction_Ok. done.
  - intros Hall. apply ParseInstruction_Err. split; [| done].
    unfold collectSwaps. rewrite groups_loop_pairs.
    fold (matching_groups instructionIndex ctx).
    induction Hall as [|g gs Hg _ IH]; [done |].
    simpl. rewrite Hg. simpl.
    destruct (mapM _ gs) as [outs|]; [| done].
    simpl in *. exact IH.
Qed.

(** ** Further properties of the decoder *)

(** What an accepted plain transfer looks like. *)
Lemma isRaydiumTransfer_true (instr : CompiledInstruction)
    (accountKeys : list PublicKey) :
  isRaydiumTransfer instr accountKeys = Done true →
  accountKeys !! N.to_nat (ProgramIDIndex instr) = Some TokenProgramID
  ∧ Data instr !! 0%nat = Some x03.
Proof.
  unfold isRaydiumTransfer.
  destruct (bool_decide (length (Accounts instr) < 3)%nat
            || bool_decide (length (Data instr) < 9)%nat); [done |].
  destruct (index accountKeys (ProgramIDIndex instr)) as [progID|] eqn:Hi;
    simpl; [| done].
  destruct (Equals progID TokenProgramID) eqn:He; simpl; [| done].
  destruct (index (Data instr) 0) as [d0|] eqn:Hd; simpl; [| done].
  intros [= H%bool_decide_eq_true]. subst d0.
  apply index_Done in Hi, Hd. apply Equals_true in He. by subst.
Qed.

(** What an accepted checked transfer looks like. *)
Lemma isRaydiumTransferChecked_true (instr : CompiledInstruction)
    (accountKeys : list PublicKey) :
  isRaydiumTransferChecked instr accountKeys = Done true →
  Data instr !! 0%nat = Some x0c.
Proof.
  unfold isRaydiumTransferChecked.
  destruct (bool_decide (length (Accounts instr) < 4)%nat
            || bool_decide (length (Data instr) < 9)%nat); [done |].
  destruct (index accountKeys (ProgramIDIndex instr)) as [progID|] eqn:Hi;
    simpl; [| done].
  destruct (negb (Equals progID TokenProgramID)
            && negb (Equals progID Token2022ProgramID)); [done |].
  destruct (index (Data instr) 0) as [d0|] eqn:Hd; simpl; [| done].
  intros [= H%bool_decide_eq_true]. subst d0.
  by apply index_Done in Hd.
Qed.

(** A classifier answers, rather than panics, on an instruction whose
    program index is inside the account table. *)
Lemma classifiers_answer (instr : CompiledInstruction)
    (accountKeys : list PublicKey) :
  (N.to_nat (ProgramIDIndex instr) < length accountKeys)%nat →
  (∃ b, isRaydiumTransfer instr accountKeys = Done b)
  ∧ (∃ b, isRaydiumTransferChecked instr accountKeys = Done b).
Proof.
  intros [progID Hi]%index_returns.
  unfold isRaydiumTransfer, isRaydiumTransferChecked. rewrite Hi. simpl.
  split.
  - destruct (bool_decide_reflect (length (Accounts instr) < 3)%nat);
      simpl; [eauto |].
    destruct (bool_decide_reflect (length (Data instr) < 9)%nat);
      simpl; [eauto |].
    destruct (first_byte_present (Data instr)) as [d0 Hd0]; [lia |].
    rewrite (proj2 (index_Done (Data instr) 0 d0)) by done.
    destruct (negb (Equals progID TokenProgramID)); simpl; eauto.
  - destruct (bool_decide_reflect (length (Accounts instr) < 4)%nat);
      simpl; [eauto |].
    destruct (bool_decide_reflect (length (Data instr) < 9)%nat);
      simpl; [eauto |].
    destruct (first_byte_present (Data instr)) as [d0 Hd0]; [lia |].
    rewrite (proj2 (index_Done (Data instr) 0 d0)) by done.
    destruct (negb (Equals progID TokenProgramID)
              && negb (Equals progID Token2022ProgramID)); simpl; eauto.
Qed.

(** X1. No instruction is both a plain and a checked transfer: when one
    classifier answers true the other answers false (it does not panic
    either), so the order of the two cases of the decoder's switch
    never decides which decoder runs. *)
Theorem classifiers_exclusive (instr : CompiledInstruction)
    (accountKeys : list PublicKey) :
  (isRaydiumTransfer instr accountKeys = Done true →
   isRaydiumTransferChecked instr accountKeys = Done false)
  ∧ (isRaydiumTransferChecked instr accountKeys = Done true →
     isRaydiumTransfer instr accountKeys = Done false).
Proof.
  split; intros Hm.
  - pose proof (isRaydiumTransfer_true _ _ Hm) as [Hp Hd].
    destruct (classifiers_answer instr accountKeys) as [_ [[] Hc]];
      [by eapply lookup_lt_Some | | done].
    apply isRaydiumTransferChecked_true in Hc. congruence.
  - pose proof (isRaydiumTransferChecked_true _ _ Hm) as Hd.
    assert (Hin : (N.to_nat (ProgramIDIndex instr) < length accountKeys)%nat).
    { apply index_returns. revert Hm. unfold isRaydiumTransferChecked.
      destruct (_ || _); [done |].
      destruct (index accountKeys (ProgramIDIndex instr)); [eauto | done]. }
    destruct (classifiers_answer instr accountKeys Hin) as [[[] Hc] _];
      [| done].
    apply isRaydiumTransfer_true in Hc as [_ Hc]. congruence.
Qed.

(** The decoder's switch gives nothing for an instruction neither
    classifier accepts. *)
Lemma decodeInner_short (ctx : TransactionContext)
    (instr : CompiledInstruction) :
  short_instruction instr → decodeInner ctx instr = Done None.
Proof.
  intros Hs. unfold decodeInner, isRaydiumTransfer, isRaydiumTransferChecked.
  destruct Hs as [Ha | Hd].
  - rewrite (bool_decide_eq_true_2 (length (Accounts instr) < 3)%nat) by done.
    rewrite (bool_decide_eq_true_2 (length (Accounts instr) < 4)%nat) by lia.
    done.
  - rewrite (bool_decide_eq_true_2 (length (Data instr) < 9)%nat) by done.
    by rewrite !orb_true_r.
Qed.

Lemma decodeInner_foreign (ctx : TransactionContext)
    (instr : CompiledInstruction) :
  foreign_instruction ctx instr → decodeInner ctx instr = Done None.
Proof.
  intros (progID & Hp & Hf).
  destruct (classifiers_answer instr (AccountKeys ctx))
    as [[b Hb] [c Hc]]; [by eapply lookup_lt_Some |].
  unfold decodeInner. rewrite Hb.
  destruct b.
  { apply isRaydiumTransfer_true in Hb as [Hb Hd].
    destruct Hf as [[Hn _] | (d0 & Hd0 & Hn & _)]; congruence. }
  simpl. rewrite Hc. destruct c; [| done].
  pose proof (isRaydiumTransferChecked_true _ _ Hc) as Hd.
  destruct Hf as [[Hn1 Hn2] | (d0 & Hd0 & _ & Hn)]; [| congruence].
  revert Hc. unfold isRaydiumTransferChecked.
  destruct (_ || _); [done |].
  rewrite (proj2 (index_Done (AccountKeys ctx) _ progID)) by done. simpl.
  apply Equals_false in Hn1, Hn2. by rewrite Hn1, Hn2.
Qed.

(** X2. An inner instruction that is too short (fewer than 3 account
    references or fewer than 9 data bytes), or that belongs to a program
    of the table other than the two token programs, or whose opcode is
    neither 3 nor 12, leaves no trace: a group decodes as if the
    instruction were not there.  For a short instruction this holds even
    when its program index is outside the account table. *)
Theorem unrelated_instructions_skipped (ctx : TransactionContext)
    (instr : CompiledInstruction) (before after : list CompiledInstruction)
    (st : list SwapInfo * list TokenInfo) :
  short_instruction instr ∨ foreign_instruction ctx instr →
  rangeM (innerBody ctx) (before ++ instr :: after) st
  = rangeM (innerBody ctx) (before ++ after) st.
Proof.
  intros H.
  assert (Hd : decodeInner ctx instr = Done None)
    by (destruct H; [by apply decodeInner_short | by apply decodeInner_foreign]).
  rewrite !rangeM_app.
  destruct (rangeM (innerBody ctx) before st) as [[swaps cur]|]; [| done].
  simpl. by rewrite Hd.
Qed.

(** X3. On an instruction its classifier accepted, a decoder's length
    re-check never fires: the plain decoder can only fail for an
    unresolved mint, and the checked decoder returns no error at
    all. *)
Theorem matched_decoder_errors (instr : CompiledInstruction)
    (ctx : TransactionContext) (msg : string) :
  (isRaydiumTransfer instr (AccountKeys ctx) = Done true →
   processTransfer instr ctx = Done (Err msg) →
   msg = "could not determine token mint")
  ∧ (isRaydiumTransferChecked instr (AccountKeys ctx) = Done true →
     processTransferChecked instr ctx ≠ Done (Err msg)).
Proof.
  split; intros Hm.
  - apply isRaydiumTransfer_lengths in Hm as [_ Hlen].
    unfold processTransfer. rewrite bool_decide_eq_false_2 by lia.
    destruct (amount_of_data (Data instr)) as (-> & Hu & _); [lia |].
    simpl. rewrite Hu. simpl.
    destruct (index (Accounts instr) 0) as [a0|]; simpl; [| done].
    destruct (index (AccountKeys ctx) a0) as [s|]; simpl; [| done].
    destruct (index (Accounts instr) 1) as [a1|]; simpl; [| done].
    destruct (index (AccountKeys ctx) a1) as [d|]; simpl; [| done].
    destruct (findTokenMint s d ctx) as [mint|]; simpl; [| done].
    destruct (bool_decide (mint = zeroPublicKey)); [| done].
    by intros [= <-].
  - apply isRaydiumTransferChecked_lengths in Hm as [_ Hlen].
    unfold processTransferChecked. rewrite bool_decide_eq_false_2 by lia.
    destruct (amount_of_data (Data instr)) as (-> & Hu & _); [lia |].
    simpl. rewrite Hu. simpl.
    destruct (index (Accounts instr) 1) as [a1|]; simpl; [| done].
    destruct (index (AccountKeys ctx) a1) as [mint|]; simpl; done.
Qed.

(** The resolver answers the zero key or the mint of a snapshot of the
    source or of the destination. *)
Lemma findTokenMint_range_sound (ctx : TransactionContext)
    (source dest mint : PublicKey) (balances : list TokenBalance) :
  findTokenMint_range source dest (AccountKeys ctx) balances = Done mint →
  mint = zeroPublicKey
  ∨ ∃ b, b ∈ balances ∧ touches ctx source dest b ∧ BalanceMint b = mint.
Proof.
  induction balances as [|b rest IH]; simpl.
  - intros [= <-]. by left.
  - destruct (index (AccountKeys ctx) (AccountIndex b)) as [accKey|] eqn:Hi;
      simpl; [| done].
    apply index_Done in Hi.
    destruct (Equals accKey source) eqn:Hs; simpl.
    { apply Equals_true in Hs as ->. intros [= <-]. right. exists b.
      split; [apply elem_of_cons; auto | split; [by left | done]]. }
    destruct (Equals accKey dest) eqn:Hd; simpl.
    { apply Equals_true in Hd as ->. intros [= <-]. right. exists b.
      split; [apply elem_of_cons; auto | split; [by right | done]]. }
    intros [-> | (b' & Hin & Hb')]%IH; [by left |].
    right. exists b'. split; [apply elem_of_cons; auto | done].
Qed.

(** X4. The mint of a transfer the plain decoder returns is never the
    all-zero key, and it is the mint some balance snapshot (pre- or
    post-execution) records for the account named by the instruction's
    first or second account reference. *)
Theorem plain_mint_from_snapshot (instr : CompiledInstruction)
    (ctx : TransactionContext) (t : TokenInfo) :
  processTransfer instr ctx = Done (Ok t) →
  Mint t ≠ zeroPublicKey
  ∧ ∃ b a k,
      b ∈ PreTokenBalances (Meta ctx) ++ PostTokenBalances (Meta ctx)
      ∧ BalanceMint b = Mint t
      ∧ (Accounts instr !! 0%nat = Some a ∨ Accounts instr !! 1%nat = Some a)
      ∧ AccountKeys ctx !! N.to_nat a = Some k
      ∧ snapshot_account ctx b = Some k.
Proof.
  unfold processTransfer.
  destruct (bool_decide (length (Data instr) < 9)%nat); [done |].
  destruct (slice (Data instr) 1 9) as [payload|]; simpl; [| done].
  destruct (Uint64 payload) as [amount|]; simpl; [| done].
  destruct (index (Accounts instr) 0) as [a0|] eqn:Ha0; simpl; [| done].
  destruct (index (AccountKeys ctx) a0) as [s|] eqn:Hs; simpl; [| done].
  destruct (index (Accounts instr) 1) as [a1|] eqn:Ha1; simpl; [| done].
  destruct (index (AccountKeys ctx) a1) as [d|] eqn:Hd; simpl; [| done].
  destruct (findTokenMint s d ctx) as [mint|] eqn:Hf; simpl; [| done].
  destruct (bool_decide_reflect (mint = zeroPublicKey)) as [|Hnz]; [done |].
  intros [= <-]. simpl. split; [done |].
  apply index_Done in Ha0, Hs, Ha1, Hd.
  apply findTokenMint_range_sound in Hf as [? | (b & Hin & Hb & Hm)]; [done |].
  destruct Hb as [Hb | Hb].
  - exists b, a0, s. eauto 10.
  - exists b, a1, d. eauto 10.
Qed.

(** X5. The checked decoder, called on any instruction: it returns an
    error exactly when the data has fewer than 9 bytes, and it returns a
    transfer exactly when the data has at least 9 bytes and the second
    account reference exists and lies in the account table; the
    transfer's mint is then that table entry, whatever the balance
    snapshots say.  In the remaining case it panics. *)
Theorem checked_decoder_cases (instr : CompiledInstruction)
    (ctx : TransactionContext) :
  ((∃ msg, processTransferChecked instr ctx = Done (Err msg)) ↔
     (length (Data instr) < 9)%nat)
  ∧ (∀ t, processTransferChecked instr ctx = Done (Ok t) ↔
       (9 ≤ length (Data instr))%nat
       ∧ ∃ a1 mint, Accounts instr !! 1%nat = Some a1
           ∧ AccountKeys ctx !! N.to_nat a1 = Some mint
           ∧ t = {| Mint := mint;
                    Amount := le_value (amount_bytes (Data instr));
                    Decimals := GetMintDecimals ctx mint |})
  ∧ (processTransferChecked instr ctx = Panic ↔
       (9 ≤ length (Data instr))%nat
       ∧ ∀ a1, Accounts instr !! 1%nat = Some a1 →
               AccountKeys ctx !! N.to_nat a1 = None).
Proof.
  unfold processTransferChecked.
  destruct (bool_decide_reflect (length (Data instr) < 9)%nat) as [Hlen|Hlen].
  { split; [split; eauto | split].
    - intros t. split; [done | lia].
    - split; [done | lia]. }
  destruct (amount_of_data (Data instr)) as (-> & Hu & _); [lia |].
  simpl. rewrite Hu. simpl.
  destruct (index (Accounts instr) 1) as [a1|] eqn:Ha1; simpl.
  - apply index_Done in Ha1. change (N.to_nat 1) with 1%nat in Ha1.
    destruct (index (AccountKeys ctx) a1) as [mint|] eqn:Hk; simpl.
    + apply index_Done in Hk. split; [| split].
      * split; [by intros [msg ?] | lia].
      * intros t. split.
        -- intros [= <-]. split; [lia |]. eauto.
        -- intros (_ & a & m & Ha & Hm & ->).
           replace a with a1 in * by congruence.
           replace m with mint by congruence. done.
      * split; [done |]. intros [_ H]. specialize (H a1 Ha1). congruence.
    + apply index_Panic, lookup_ge_None in Hk. split; [| split].
      * split; [by intros [msg ?] | lia].
      * intros t. split; [done |].
        intros (_ & a & m & Ha & Hm & _).
        replace a with a1 in * by congruence. congruence.
      * split; [| done]. intros _. split; [lia |].
        intros a Ha. by replace a with a1 by congruence.
  - apply index_Panic, lookup_ge_None in Ha1.
    change (N.to_nat 1) with 1%nat in Ha1. split; [| split].
    + split; [by intros [msg ?] | lia].
    + intros t. split; [done |].
      intros (_ & a & m & Ha & _). congruence.
    + split; [| done]. intros _. split; [lia |].
      intros a Ha. congruence.
Qed.

(** X6. The mint resolver does not distinguish the source from the
    destination: exchanging the two accounts gives the same answer, and
    the same panic. *)
Theorem resolver_symmetric (source dest : PublicKey)
    (ctx : TransactionContext) :
  findTokenMint source dest ctx = findTokenMint dest source ctx.
Proof.
  unfold findTokenMint.
  induction (PreTokenBalances (Meta ctx) ++ PostTokenBalances (Meta ctx))
    as [|b rest IH]; simpl; [done |].
  destruct (index (AccountKeys ctx) (AccountIndex b)) as [accKey|];
    simpl; [| done].
  rewrite (orb_comm (Equals accKey source)).
  by destruct (Equals accKey dest || Equals accKey source).
Qed.

(** X7. The outcomes of the mint resolver on any context.  It panics
    exactly when, before any snapshot of the source or the destination,
    there is a snapshot whose account index is outside the account
    table; and a key it returns is the all-zero key or the mint recorded
    by a snapshot of the source or of the destination. *)
Theorem resolver_outcomes (source dest : PublicKey)
    (ctx : TransactionContext) :
  let balances :=
    PreTokenBalances (Meta ctx) ++ PostTokenBalances (Meta ctx) in
  (findTokenMint source dest ctx = Panic ↔
     ∃ l1 b l2, balances = l1 ++ b :: l2
                ∧ Forall (misses ctx source dest) l1
                ∧ snapshot_account ctx b = None)
  ∧ (∀ mint, findTokenMint source dest ctx = Done mint →
       mint = zeroPublicKey
       ∨ ∃ b, b ∈ balances ∧ touches ctx source dest b
              ∧ BalanceMint b = mint).
Proof.
  simpl. unfold findTokenMint.
  split; [| intros mint; apply findTokenMint_range_sound].
  induction (PreTokenBalances (Meta ctx) ++ PostTokenBalances (Meta ctx))
    as [|b rest IH].
  - split; [done |]. intros (l1 & b & l2 & Heq & _).
    by destruct l1.
  - split.
    + simpl.
      destruct (index (AccountKeys ctx) (AccountIndex b)) as [accKey|] eqn:Hi;
        simpl.
      * apply index_Done in Hi.
        destruct (Equals accKey source) eqn:Hs; simpl; [done |].
        destruct (Equals accKey dest) eqn:Hd; simpl; [done |].
        intros (l1 & b' & l2 & -> & Hl1 & Hb')%IH.
        exists (b :: l1), b', l2. split; [done |]. split; [| done].
        apply Forall_cons_2; [| done].
        exists accKey. by rewrite <- !Equals_false.
      * intros _. exists [], b, rest.
        apply index_Panic, lookup_ge_None in Hi. by split.
    + intros (l1 & b' & l2 & Heq & Hl1 & Hb').
      destruct Hl1 as [|b0 l1 Hb0 Hl1].
      * injection Heq as -> ->. simpl.
        unfold snapshot_account in Hb'. apply lookup_ge_None in Hb'.
        by rewrite (proj2 (index_Panic _ _) Hb').
      * injection Heq as -> ->. rewrite findTokenMint_range_miss by done.
        apply IH. eauto 10.
Qed.

(** X8. For two transfers of distinct mints whose owners the assembler
    can compare (the first pre-execution snapshot of each mint, if there
    is one, records its owner, or the transaction has no signer),
    handing them to the assembler in the opposite order gives the same
    swap exactly when one of the two mints, and only one, has a
    signer-owned first pre-execution snapshot; when both or neither have
    one, the order of the two transfers alone decides the direction of
    the swap. *)
Theorem assembler_order (t1 t2 : TokenInfo) (ctx : TransactionContext) :
  Mint t1 ≠ Mint t2 →
  owner_known ctx (Mint t1) →
  owner_known ctx (Mint t2) →
  (buildSwapInfo t1 t2 ctx = buildSwapInfo t2 t1 ctx ↔
     first_owner_signs ctx (Mint t1) ≠ first_owner_signs ctx (Mint t2)).
Proof.
  intros Hne Hk1 Hk2.
  rewrite (buildSwapInfo_distinct t1 t2) by done.
  rewrite (buildSwapInfo_distinct t2 t1) by done.
  destruct (first_owner_signs ctx (Mint t1)),
    (first_owner_signs ctx (Mint t2)); split; try done.
  - intros [= -> _]. done.
  - intros [= -> _]. done.
Qed.

(** X9. When the transaction has no signer, or no pre-execution snapshot
    records the first transfer's mint (in particular when there are no
    pre-execution snapshots), a pair of distinct mints is always
    oriented from the second transfer to the first. *)
Theorem assembler_default_orientation (t1 t2 : TokenInfo)
    (ctx : TransactionContext) :
  Mint t1 ≠ Mint t2 →
  Signers ctx = []
  ∨ Forall (λ b, BalanceMint b ≠ Mint t1) (PreTokenBalances (Meta ctx)) →
  buildSwapInfo t1 t2 ctx =
    Done (Ok {| Protocol := SwapTypeRaydium;
                TokenIn := t2; TokenOut := t1 |}).
Proof.
  intros Hne H. rewrite buildSwapInfo_spec by done.
  destruct (first_snapshot ctx (Mint t1)) as [b|] eqn:Hf; [| done].
  destruct H as [-> | Hall]; [done |].
  unfold first_snapshot in Hf.
  destruct (list_find _ _) as [[i b']|] eqn:Hfind; [| done].
  apply list_find_Some in Hfind as (Hi & Hb & _).
  by eapply Forall_lookup_1 in Hall.
Qed.

(** *** Facts about the pairing *)

Lemma consecutive_pairs_elems {A} (l : list A) :
  (∀ a b, (a, b) ∈ consecutive_pairs l → a ∈ l ∧ b ∈ l)
  ∧ (∀ x a b, (a, b) ∈ consecutive_pairs (x :: l) →
       a ∈ x :: l ∧ b ∈ x :: l).
Proof.
  induction l as [|y l [IH1 IH2]].
  - split; [intros a b H | intros x a b H]; by apply elem_of_nil in H.
  - split; [intros a b; apply IH2 |].
    intros x a b [[= -> ->] | H]%elem_of_cons.
    + split; [| apply elem_of_cons; right]; apply elem_of_cons; by left.
    + apply IH1 in H as [Ha Hb].
      split; apply elem_of_cons; right; apply elem_of_cons; by right.
Qed.

Lemma consecutive_pairs_length {A} (l : list A) :
  (2 * length (consecutive_pairs l) ≤ length l)%nat
  ∧ (∀ x, 2 * length (consecutive_pairs (x :: l)) ≤ S (length l))%nat.
Proof.
  induction l as [|y l [IH1 IH2]].
  - split; [| intros x]; simpl; lia.
  - split; [apply IH2 |]. intros x. simpl. lia.
Qed.

(** X10. Every swap the decode entry point returns carries the Raydium
    tag, and its two sides are two transfers decoded from two
    instructions of one and the same group tagged with the outer
    index: nothing in the output is made up, and no pair spans two
    groups. *)
Theorem swap_sides_are_decoded (instruction : CompiledInstruction)
    (instructionIndex : Z) (ctx : TransactionContext)
    (swaps : list SwapInfo) (s : SwapInfo) :
  ParseInstruction instruction instructionIndex ctx = Done (Ok swaps) →
  s ∈ swaps →
  Protocol s = SwapTypeRaydium
  ∧ ∃ g i1 i2 a b,
      g ∈ InnerInstructions (Meta ctx)
      ∧ Index g = uint16 instructionIndex
      ∧ i1 ∈ Instructions g ∧ i2 ∈ Instructions g
      ∧ decodeInner ctx i1 = Done (Some (Ok a))
      ∧ decodeInner ctx i2 = Done (Some (Ok b))
      ∧ ((TokenIn s = a ∧ TokenOut s = b) ∨ (TokenIn s = b ∧ TokenOut s = a)).
Proof.
  intros Hp Hs.
  destruct (ParseInstruction_Ok_elem _ _ _ _ _ Hp Hs)
    as (g & o & a & b & Hg & Hgo & Hpair & Hbuild).
  apply list_elem_of_filter in Hg as [Hidx Hg].
  apply buildSwapInfo_Ok_sides in Hbuild as (_ & Hprot & Hsides).
  split; [done |].
  apply (proj1 (consecutive_pairs_elems _)) in Hpair as [Ha Hbb].
  assert (Hdec : ∀ t, t ∈ decoded o →
            ∃ i, i ∈ Instructions g ∧ decodeInner ctx i = Done (Some (Ok t))).
  { intros t ([[t'|]|] & Hin & Ht)%list_elem_of_omap; try done.
    injection Ht as ->. by eapply mapM_Done_elem. }
  destruct (Hdec a Ha) as (i1 & Hi1 & Hd1).
  destruct (Hdec b Hbb) as (i2 & Hi2 & Hd2).
  exists g, i1, i2, a, b. eauto 10.
Qed.

(** X11. A successful decode returns at least one swap and at most, for
    each group tagged with the outer index, half as many swaps as the
    group has instructions. *)
Theorem swap_count_bounds (instruction : CompiledInstruction)
    (instructionIndex : Z) (ctx : TransactionContext)
    (swaps : list SwapInfo) :
  ParseInstruction instruction instructionIndex ctx = Done (Ok swaps) →
  (1 ≤ length swaps ≤ max_swaps instructionIndex ctx)%nat.
Proof.
  intros H. split.
  { apply ParseInstruction_Ok in H as [_ Hne].
    destruct swaps; [done | simpl; lia]. }
  apply ParseInstruction_Ok_groups in H as (swapss & Hm & ->).
  unfold max_swaps. revert swapss Hm.
  induction (matching_groups instructionIndex ctx) as [|g gs IH];
    intros swapss.
  - by intros [= <-].
  - intros (sw & k & Hsw & Hk & ->)%mapM_Done_cons.
    rewrite fmap_cons. cbn [concat sum_list_with].
    rewrite length_app. specialize (IH k Hk).
    unfold group_swaps in Hsw.
    apply bind_Done_inv in Hsw as (o & Ho & Hasm).
    apply mapM_Done_length in Ho. apply assembled_length in Hasm.
    pose proof (proj1 (consecutive_pairs_length (decoded o))) as H2.
    assert (H3 : (length (decoded o) ≤ length o)%nat)
      by apply omap_length_le.
    assert (length sw ≤ length (Instructions g) `div` 2)%nat
      by (apply Nat.div_le_lower_bound; lia).
    unfold id at 1. lia.
Qed.

(** X12. The outer instruction handed to the decode entry point is never
    inspected, and its index counts only modulo 65536: two calls whose
    indices agree on their low 16 bits give the same result on the same
    context. *)
Theorem decode_depends_on_low_index_bits
    (instruction instruction' : CompiledInstruction)
    (instructionIndex instructionIndex' : Z) (ctx : TransactionContext) :
  instructionIndex mod 65536 = instructionIndex' mod 65536 →
  ParseInstruction instruction instructionIndex ctx
  = ParseInstruction instruction' instructionIndex' ctx.
Proof.
  intros Hmod. unfold ParseInstruction, collectSwaps, groupBody, uint16.
  by rewrite Hmod.
Qed.

(** X13. The invariant of the instruction loop: started with at most one
    pending transfer (it starts with none), it ends with at most one, so
    the slice [currentTransfers[2:]] taken after a pair is always empty;
    and the swaps collected so far are kept, in order, as a prefix of
    the result, which grows by at most one swap for every two
    instructions. *)
Theorem pending_transfer_invariant (ctx : TransactionContext)
    (instrs : list CompiledInstruction) (swaps swaps' : list SwapInfo)
    (cur cur' : list TokenInfo) :
  (length cur ≤ 1)%nat →
  rangeM (innerBody ctx) instrs (swaps, cur) = Done (swaps', cur') →
  (length cur' ≤ 1)%nat
  ∧ ∃ added, swaps' = swaps ++ added
             ∧ (2 * length added + length cur'
                ≤ length cur + length instrs)%nat.
Proof.
  revert swaps cur. induction instrs as [|instr instrs IH];
    intros swaps cur Hc; simpl.
  - intros [= <- <-]. split; [done |]. exists [].
    rewrite app_nil_r. simpl. split; [done | lia].
  - intros ([s1 c1] & Hstep & Hrest)%bind_Done_inv.
    assert (Hlen : (2 * length s1 + length c1
                    ≤ 2 * length swaps + length cur + 1)%nat
                   ∧ (length c1 ≤ 1)%nat ∧ ∃ a, s1 = swaps ++ a).
    { revert Hstep. unfold innerBody.
      destruct (decodeInner ctx instr) as [[[t|msg]|]|]; simpl; try done;
        try (intros [= <- <-]; split; [lia |]; split; [done |]; exists [];
             by rewrite app_nil_r).
      destruct cur as [|c [|]]; simpl in Hc; try lia; simpl.
      - intros [= <- <-]. simpl. split; [lia |]. split; [lia |].
        exists []. by rewrite app_nil_r.
      - destruct (buildSwapInfo c t ctx) as [[swap|msg]|]; simpl;
          [| | done]; intros [= <- <-];
          simpl; rewrite ?length_app; simpl;
          (split; [lia |]); (split; [lia |]); eauto.
        exists []. by rewrite app_nil_r. }
    destruct Hlen as (Hlen & Hc1 & a & ->).
    destruct (IH _ _ Hc1 Hrest) as (Hc' & added & -> & Hadd).
    split; [done |]. exists (a ++ added).
    split; [by rewrite app_assoc |].
    rewrite !length_app in *. lia.
Qed.

(** The resolver answers when every snapshot's account index is inside
    the account table. *)
Lemma findTokenMint_returns (source dest : PublicKey)
    (ctx : TransactionContext) :
  Forall (λ b, in_table ctx (AccountIndex b))
    (PreTokenBalances (Meta ctx) ++ PostTokenBalances (Meta ctx)) →
  ∃ mint, findTokenMint source dest ctx = Done mint.
Proof.
  unfold findTokenMint.
  induction 1 as [|b rest Hb _ IH]; simpl; [by eexists |].
  apply index_returns in Hb as [accKey ->]. simpl.
  destruct (Equals accKey source || Equals accKey dest); [by eexists | done].
Qed.

(** The decoder's switch answers on an instruction that stays inside the
    account table, when the snapshots do too. *)
Lemma decodeInner_returns (ctx : TransactionContext)
    (instr : CompiledInstruction) :
  instr_in_table ctx instr →
  Forall (λ b, in_table ctx (AccountIndex b))
    (PreTokenBalances (Meta ctx) ++ PostTokenBalances (Meta ctx)) →
  ∃ r, decodeInner ctx instr = Done r.
Proof.
  intros [Hprog Hacc] Hbal.
  assert (Hkey : ∀ i a, Accounts instr !! i = Some a →
            ∃ k, AccountKeys ctx !! N.to_nat a = Some k).
  { intros i a Ha. apply lookup_lt_is_Some.
    by apply (Forall_lookup_1 _ _ _ _ Hacc Ha). }
  destruct (classifiers_answer instr (AccountKeys ctx) Hprog)
    as [[b Hb] [c Hc]].
  unfold decodeInner. rewrite Hb. destruct b.
  - pose proof (isRaydiumTransfer_lengths _ _ Hb) as [Hla _].
    destruct (lookup_lt_is_Some_2 (Accounts instr) 0) as [a0 Ha0]; [lia |].
    destruct (lookup_lt_is_Some_2 (Accounts instr) 1) as [a1 Ha1]; [lia |].
    destruct (Hkey _ _ Ha0) as [s Hs]. destruct (Hkey _ _ Ha1) as [d Hd].
    destruct (findTokenMint_returns s d ctx Hbal) as [mint Hm].
    assert (Hplain : plain_transfer_of ctx instr s d)
      by (split; [done | split; eauto]).
    destruct (decide (mint = zeroPublicKey)) as [-> | Hnz].
    + destruct (processTransfer_unresolved ctx instr s d Hplain Hm)
        as [-> _]. by eexists.
    + rewrite (processTransfer_returns ctx instr s d mint) by done.
      by eexists.
  - simpl. rewrite Hc. destruct c; [| by eexists].
    pose proof (isRaydiumTransferChecked_lengths _ _ Hc) as [Hla _].
    destruct (lookup_lt_is_Some_2 (Accounts instr) 1) as [a1 Ha1]; [lia |].
    destruct (Hkey _ _ Ha1) as [mint Hmint].
    rewrite (processTransferChecked_returns instr ctx a1 mint) by done.
    by eexists.
Qed.

(** The assembler answers when every pre-execution snapshot records
    its owner, or the transaction has no signer. *)
Lemma buildSwapInfo_returns (t1 t2 : TokenInfo) (ctx : TransactionContext) :
  Signers ctx = []
  ∨ Forall (λ b, is_Some (Owner b)) (PreTokenBalances (Meta ctx)) →
  ∃ r, buildSwapInfo t1 t2 ctx = Done r.
Proof.
  intros H. destruct (decide (Mint t1 = Mint t2)) as [He|Hne].
  { rewrite buildSwapInfo_same by done. by eexists. }
  rewrite buildSwapInfo_distinct; [by eexists | done |].
  intros b Hb. destruct H as [Hs | Hall]; [by right | left].
  unfold first_snapshot in Hb.
  destruct (list_find _ _) as [[i b']|] eqn:Hfind; [| done].
  injection Hb as ->.
  apply list_find_Some in Hfind as (Hi & _).
  by eapply Forall_lookup_1 in Hall.
Qed.

(** X14. Decoding cannot panic on a context that stays inside its
    account table and records the owners: when the program index and
    the account references of every instruction in the groups tagged
    with the outer index, and the account index of every balance
    snapshot, are below the length of the account table, and every
    pre-execution snapshot records an owner (or the transaction has no
    signer), the decode entry point returns (a list of swaps or its
    error). *)
Theorem decode_returns_in_table (instruction : CompiledInstruction)
    (instructionIndex : Z) (ctx : TransactionContext) :
  context_in_table instructionIndex ctx →
  Signers ctx = []
  ∨ Forall (λ b, is_Some (Owner b)) (PreTokenBalances (Meta ctx)) →
  ∃ r, ParseInstruction instruction instructionIndex ctx = Done r.
Proof.
  intros [Hgroups Hbal] Hown.
  assert (Hm : ∃ swapss,
    mapM (λ g, group_swaps ctx (Instructions g))
      (matching_groups instructionIndex ctx) = Done swapss).
  { apply mapM_returns. eapply Forall_impl; [exact Hgroups |].
    intros g Hg. unfold group_swaps.
    destruct (mapM_returns (decodeInner ctx) (Instructions g)) as [outs ->].
    { eapply Forall_impl; [exact Hg |].
      intros instr Hi. by apply decodeInner_returns. }
    simpl. unfold assembled.
    destruct (mapM_returns (λ p, buildSwapInfo p.1 p.2 ctx)
                (consecutive_pairs (decoded outs))) as [rs ->].
    { apply Forall_forall. intros p _. by apply buildSwapInfo_returns. }
    simpl. by eexists. }
  destruct Hm as [swapss Hm].
  unfold ParseInstruction, collectSwaps. rewrite groups_loop_pairs.
  fold (matching_groups instructionIndex ctx). rewrite Hm. simpl.
  destruct (bool_decide _); by eexists.
Qed.

(** X16. Both decoders read only the first nine data bytes and the first
    two account references: instructions that agree on these decode
    alike.  In particular the decimals byte a TransferChecked
    instruction carries after its amount is never used. *)
Theorem decoders_ignore_the_rest (instr instr' : CompiledInstruction)
    (ctx : TransactionContext) :
  take 9 (Data instr) = take 9 (Data instr') →
  take 2 (Accounts instr) = take 2 (Accounts instr') →
  processTransfer instr ctx = processTransfer instr' ctx
  ∧ processTransferChecked instr ctx = processTransferChecked instr' ctx.
Proof.
  intros Hd Ha.
  assert (Hlen : (length (Data instr) < 9)%nat
                 ↔ (length (Data instr') < 9)%nat).
  { apply (f_equal length) in Hd. rewrite !length_take in Hd. lia. }
  assert (H0 : index (Accounts instr) 0 = index (Accounts instr') 0).
  { unfold index. change (N.to_nat 0) with 0%nat.
    rewrite <- (lookup_take_lt (Accounts instr) 2 0) by lia.
    rewrite <- (lookup_take_lt (Accounts instr') 2 0) by lia.
    by rewrite Ha. }
  assert (H1 : index (Accounts instr) 1 = index (Accounts instr') 1).
  { unfold index. change (N.to_nat 1) with 1%nat.
    rewrite <- (lookup_take_lt (Accounts instr) 2 1) by lia.
    rewrite <- (lookup_take_lt (Accounts instr') 2 1) by lia.
    by rewrite Ha. }
  unfold processTransfer, processTransferChecked.
  destruct (bool_decide_reflect (length (Data instr) < 9)%nat) as [Hs|Hs].
  { rewrite (bool_decide_eq_true_2 (length (Data instr') < 9)%nat)
      by (by apply Hlen). done. }
  rewrite (bool_decide_eq_false_2 (length (Data instr') < 9)%nat)
    by (by rewrite <- Hlen).
  assert (Hp : slice (Data instr) 1 9 = slice (Data instr') 1 9).
  { destruct (amount_of_data (Data instr)) as (-> & _); [lia |].
    destruct (amount_of_data (Data instr')) as (-> & _); [lia |].
    f_equal. unfold amount_bytes.
    rewrite !(take_drop_commute _ 8 1). simpl. by rewrite Hd. }
  by rewrite Hp, H0, H1.
Qed.

Lemma byte_u64_inj (a b : byte) : byte_u64 a = byte_u64 b → a = b.
Proof.
  unfold byte_u64. intros H. apply (inj Some).
  rewrite <- (Byte.of_to_N a), <- (Byte.of_to_N b). f_equal. lia.
Qed.

(** Byte strings of one length with the same little-endian value are
    equal. *)
Lemma le_value_inj (bs bs' : list byte) :
  length bs = length bs' → le_value bs = le_value bs' → bs = bs'.
Proof.
  revert bs'. induction bs as [|b bs IH]; intros [|b' bs']; simpl;
    try done.
  intros [= Hlen] Hv.
  pose proof (byte_u64_range b). pose proof (byte_u64_range b').
  assert (byte_u64 b = byte_u64 b' ∧ le_value bs = le_value bs') as [Hb Hr]
    by (unfold le_value in *; lia).
  f_equal; [by apply byte_u64_inj | by apply IH].
Qed.

(** X17. The amount loses nothing of the eight bytes it is read from:
    two decoded transfers (plain or checked, of any two instructions)
    have the same amount exactly when the two instructions carry the
    same data bytes 1..8. *)
Theorem amount_determines_bytes (instr instr' : CompiledInstruction)
    (ctx ctx' : TransactionContext) (t t' : TokenInfo) :
  processTransfer instr ctx = Done (Ok t)
  ∨ processTransferChecked instr ctx = Done (Ok t) →
  processTransfer instr' ctx' = Done (Ok t')
  ∨ processTransferChecked instr' ctx' = Done (Ok t') →
  (Amount t = Amount t' ↔
   amount_bytes (Data instr) = amount_bytes (Data instr')).
Proof.
  intros H H'.
  assert (Ht : (9 ≤ length (Data instr))%nat
               ∧ Amount t = le_value (amount_bytes (Data instr)))
    by (destruct H;
        eauto using processTransfer_amount, processTransferChecked_amount).
  assert (Ht' : (9 ≤ length (Data instr'))%nat
                ∧ Amount t' = le_value (amount_bytes (Data instr')))
    by (destruct H';
        eauto using processTransfer_amount, processTransferChecked_amount).
  destruct Ht as [Hl ->], Ht' as [Hl' ->].
  destruct (amount_of_data _ Hl) as (_ & _ & H8).
  destruct (amount_of_data _ Hl') as (_ & _ & H8').
  split; [| by intros ->].
  apply le_value_inj. congruence.
Qed.

End Raydium.

(** ** The theorems at the sample transactions *)

Module Checks.
Import Sample.

(** A plain transfer of A then a checked transfer of B, the account of
    A owned by the signer: one swap from A to B. *)
Example parse_signer_owned :
  ParseInstruction splToken splToken2022 decimals outer 0 swapContext = Done (Ok [swapAB]).
Proof. vm_compute. reflexivity. Qed.

(** The same with the account of A owned by somebody else: the swap
    goes from B to A. *)
Example parse_not_signer_owned :
  ParseInstruction splToken splToken2022 decimals outer 0 vaultContext = Done (Ok [swapBA]).
Proof. vm_compute. reflexivity. Qed.

(** Transfers A, A, C, A, B and then B in a second group: the pair
    (A, A) is rejected and both its transfers are gone, (C, A) gives the
    one swap, and neither the fifth transfer nor the lone transfer of
    the second group is paired. *)
Example parse_five_and_one :
  ParseInstruction splToken splToken2022 decimals outer 0 fiveAndOne = Done (Ok [swapAC]).
Proof. vm_compute. reflexivity. Qed.

Example consecutive_pairs_of_five :
  consecutive_pairs [1; 2; 3; 4; 5] = [(1, 2); (3, 4)].
Proof. reflexivity. Qed.

(** The outer index is compared after conversion to 16 bits. *)
Example parse_index_wraps :
  ParseInstruction splToken splToken2022 decimals outer 65536 swapContext = Done (Ok [swapAB]).
Proof. vm_compute. reflexivity. Qed.

(** A well-shaped inner instruction whose program index is outside the
    account table makes the whole decode panic. *)
Example parse_stray_panics :
  ParseInstruction splToken splToken2022 decimals outer 0 (context [mkInner 0 [plain; stray]] userOwnsA []) = Panic.
Proof. vm_compute. reflexivity. Qed.

Lemma returned_swaps_have_distinct_mints_witness :
  ParseInstruction splToken splToken2022 decimals outer 0 swapContext = Done (Ok [swapAB])
  ∧ swapAB ∈ [swapAB]
  ∧ Mint (TokenIn swapAB) ≠ Mint (TokenOut swapAB).
Proof.
  assert (H1 : ParseInstruction splToken splToken2022 decimals outer 0 swapContext = Done (Ok [swapAB]))
    by (vm_compute; reflexivity).
  assert (H2 : swapAB ∈ [swapAB]) by (apply elem_of_cons; left; reflexivity).
  split; [exact H1 | split; [exact H2 |]].
  exact (returned_swaps_have_distinct_mints splToken splToken2022 decimals
           outer 0 swapContext [swapAB] swapAB H1 H2).
Defined.

Lemma mints_A_B_differ : Mint tokA ≠ Mint tokB.
Proof. intros H. vm_compute in H. discriminate H. Defined.

Lemma owner_known_A (ctx : TransactionContext) (b0 : TokenBalance) :
  first_snapshot ctx mintA = Some b0 → is_Some (Owner b0) →
  owner_known ctx (Mint tokA).
Proof.
  intros Hf Ho b Hb. left.
  change (Mint tokA) with mintA in Hb. rewrite Hf in Hb.
  injection Hb as <-. exact Ho.
Defined.

Lemma owner_known_swapContext : owner_known swapContext (Mint tokA).
Proof.
  apply (owner_known_A swapContext
           {| AccountIndex := 2; BalanceMint := mintA;
              Owner := Some signer |}).
  - vm_compute. reflexivity.
  - eexists. reflexivity.
Defined.

Lemma owner_known_twoSnapshots : owner_known twoSnapshots (Mint tokA).
Proof.
  apply (owner_known_A twoSnapshots
           {| AccountIndex := 3; BalanceMint := mintA;
              Owner := Some stranger |}).
  - vm_compute. reflexivity.
  - eexists. reflexivity.
Defined.

Lemma orientation_by_first_snapshot_witness :
  Mint tokA ≠ Mint tokB
  ∧ owner_known swapContext (Mint tokA)
  ∧ owner_known twoSnapshots (Mint tokA)
  ∧ buildSwapInfo tokA tokB swapContext = Done (Ok swapAB)
  ∧ buildSwapInfo tokA tokB twoSnapshots = Done (Ok swapBA).
Proof.
  split; [exact mints_A_B_differ |].
  split; [exact owner_known_swapContext |].
  split; [exact owner_known_twoSnapshots |]. split.
  - apply (orientation_by_first_snapshot tokA tokB swapContext
             mints_A_B_differ owner_known_swapContext).
    vm_compute. reflexivity.
  - apply (orientation_by_first_snapshot tokA tokB twoSnapshots
             mints_A_B_differ owner_known_twoSnapshots).
    vm_compute. reflexivity.
Defined.

(** With the vault's snapshot of mint A before the user's, a snapshot of
    that mint is owned by the signer, yet the swap goes from the second
    transfer to the first. *)
Lemma orientation_by_any_snapshot_fails :
  ¬ orientation_by_any_snapshot tokA tokB twoSnapshots.
Proof.
  intros H. destruct (H mints_A_B_differ) as [Hsome _].
  assert (Hs : some_owner_signs twoSnapshots (Mint tokA)).
  { exists {| AccountIndex := 2; BalanceMint := mintA;
              Owner := Some signer |}, signer.
    split; [| split; [| split]].
    - apply elem_of_cons. right. apply elem_of_cons. left. reflexivity.
    - reflexivity.
    - reflexivity.
    - apply elem_of_cons. left. reflexivity. }
  specialize (Hsome Hs). vm_compute in Hsome. discriminate Hsome.
Qed.

(** The sample instruction [stray] passes both length checks and names
    program index 9 in a table of 9 keys: both classifiers panic. *)
Lemma classifiers_return_fails :
  ¬ classifiers_return splToken splToken2022 stray keyTable.
Proof.
  intros [[b Hb] _]. vm_compute in Hb. discriminate Hb.
Qed.

Lemma amount_little_endian_witness :
  (isRaydiumTransfer splToken plain (AccountKeys swapContext) = Done true
   ∧ processTransfer decimals plain swapContext = Done (Ok tokA))
  ∧ (isRaydiumTransferChecked splToken splToken2022 checked
       (AccountKeys swapContext) = Done true
     ∧ processTransferChecked decimals checked swapContext = Done (Ok tokB))
  ∧ le_value (amount_bytes (Data plain)) = 100
  ∧ le_value (amount_bytes (Data checked)) = 250
  ∧ le_value (amount_bytes (Data checkedC)) = 258.
Proof.
  assert (Hm : isRaydiumTransfer splToken plain (AccountKeys swapContext)
               = Done true) by (vm_compute; reflexivity).
  assert (Hc : isRaydiumTransferChecked splToken splToken2022 checked
                 (AccountKeys swapContext) = Done true)
    by (vm_compute; reflexivity).
  assert (Hp : processTransfer decimals plain swapContext = Done (Ok tokA)).
  { apply (proj1 (proj2 (amount_little_endian splToken splToken2022
                           decimals plain swapContext))
             (key xa1) (key xa2) mintA).
    - split; [exact Hm |].
      split; eexists; (split; [reflexivity | reflexivity]).
    - vm_compute. reflexivity.
    - intros E. vm_compute in E. discriminate E. }
  assert (Hq : processTransferChecked decimals checked swapContext
               = Done (Ok tokB)).
  { exact (proj2 (proj2 (amount_little_endian splToken splToken2022
                           decimals checked swapContext))
             5%N mintB Hc eq_refl eq_refl). }
  split; [exact (conj Hm Hp) |]. split; [exact (conj Hc Hq) |].
  split; [| split; [| vm_compute; reflexivity]].
  - symmetry.
    exact (proj1 (proj1 (amount_little_endian splToken splToken2022
                           decimals plain swapContext)
                    tokA (or_introl (conj Hm Hp)))).
  - symmetry.
    exact (proj1 (proj1 (amount_little_endian splToken splToken2022
                           decimals checked swapContext)
                    tokB (or_intror (conj Hc Hq)))).
Defined.

Lemma plain_of_sample (ctx : TransactionContext) :
  AccountKeys ctx = keyTable →
  plain_transfer_of splToken ctx plain (key xa1) (key xa2).
Proof.
  intros Hk. unfold plain_transfer_of. rewrite Hk.
  split; [vm_compute; reflexivity |].
  split; eexists; (split; [reflexivity | reflexivity]).
Defined.

Lemma other_account_misses (ctx : TransactionContext) (mint : PublicKey)
    (owner : option PublicKey) :
  AccountKeys ctx = keyTable →
  misses ctx (key xa1) (key xa2)
    {| AccountIndex := 6; BalanceMint := mint; Owner := owner |}.
Proof.
  intros Hk. exists (key xb2). unfold snapshot_account. rewrite Hk.
  split; [reflexivity |].
  split; intros H; vm_compute in H; discriminate H.
Defined.

Lemma mint_resolver_first_match_witness :
  findTokenMint (key xa1) (key xa2) missThenMatch = Done mintA
  ∧ findTokenMint (key xa1) (key xa2) otherAccount = Done zeroPublicKey
  ∧ processTransfer decimals plain otherAccount
    = Done (Err "could not determine token mint").
Proof.
  split; [| split].
  - apply (proj1 (mint_resolver_first_match splToken splToken2022 decimals
                    (key xa1) (key xa2) missThenMatch)
             [{| AccountIndex := 6; BalanceMint := mintB;
                 Owner := Some signer |}]
             {| AccountIndex := 3; BalanceMint := mintA;
                Owner := Some stranger |}
             []).
    + reflexivity.
    + apply Forall_cons_2; [| apply Forall_nil_2].
      apply other_account_misses. reflexivity.
    + right. reflexivity.
  - apply (proj2 (mint_resolver_first_match splToken splToken2022 decimals
                    (key xa1) (key xa2) otherAccount)).
    apply Forall_cons_2; [| apply Forall_nil_2].
    apply other_account_misses. reflexivity.
  - apply (proj2 (mint_resolver_first_match splToken splToken2022 decimals
                    (key xa1) (key xa2) otherAccount)).
    + apply Forall_cons_2; [| apply Forall_nil_2].
      apply other_account_misses. reflexivity.
    + apply plain_of_sample. reflexivity.
Defined.

(** In [strayBalance] no snapshot belongs to the source or the
    destination, yet the resolver does not answer the not-found key: it
    panics on the snapshot's account index, and so does the decode. *)
Lemma resolver_first_match_unconditional_fails :
  ¬ resolver_first_match_unconditional (key xa1) (key xa2) strayBalance.
Proof.
  intros [_ Hnone].
  assert (Hall : Forall (λ b, ¬ touches strayBalance (key xa1) (key xa2) b)
            (PreTokenBalances (Meta strayBalance)
             ++ PostTokenBalances (Meta strayBalance))).
  { apply Forall_cons_2; [| apply Forall_nil_2].
    intros [H | H]; vm_compute in H; discriminate H. }
  specialize (Hnone Hall). vm_compute in Hnone. discriminate Hnone.
Qed.

Example parse_stray_balance_panics :
  ParseInstruction splToken splToken2022 decimals outer 0 strayBalance
  = Panic.
Proof. vm_compute. reflexivity. Qed.

Lemma no_swaps_error_iff_witness :
  Forall (λ g, Instructions g = []) (matching_groups 0 emptyGroups)
  ∧ ParseInstruction splToken splToken2022 decimals outer 0 emptyGroups = Done (Err "no valid Raydium swaps found")
  ∧ [swapAB] ≠ [].
Proof.
  assert (H : Forall (λ g, Instructions g = [])
                (matching_groups 0 emptyGroups)).
  { vm_compute. apply Forall_cons_2; [reflexivity |].
    apply Forall_cons_2; [reflexivity | apply Forall_nil_2]. }
  split; [exact H |]. split.
  - exact (proj2 (proj2 (proj2
             (no_swaps_error_iff splToken splToken2022 decimals
                outer 0 emptyGroups))) H).
  - apply (proj1 (proj2 (proj2
             (no_swaps_error_iff splToken splToken2022 decimals
                outer 0 swapContext)))).
    vm_compute. reflexivity.
Defined.

Lemma owner_missing_ownerless : owner_missing ownerless (Mint tokA).
Proof.
  exists {| AccountIndex := 2; BalanceMint := mintA; Owner := None |}.
  split; [vm_compute; reflexivity |]. split; [reflexivity |].
  intros E. discriminate E.
Defined.

Lemma assembler_outcomes_witness :
  Mint tokA ≠ Mint tokB
  ∧ owner_missing ownerless (Mint tokA)
  ∧ buildSwapInfo tokA tokB ownerless = Panic
  ∧ ∃ msg, buildSwapInfo tokA tokA ownerless = Done (Err msg).
Proof.
  split; [exact mints_A_B_differ |].
  split; [exact owner_missing_ownerless |]. split.
  - exact (proj2 (proj1 (proj2 (assembler_outcomes tokA tokB ownerless)))
             (conj mints_A_B_differ owner_missing_ownerless)).
  - apply (proj1 (assembler_outcomes tokA tokA ownerless)).
    reflexivity.
Defined.

(** The whole decode of the sample swap panics when the snapshot of
    mint A records no owner. *)
Example parse_ownerless_panics :
  ParseInstruction splToken splToken2022 decimals outer 0 ownerless = Panic.
Proof. vm_compute. reflexivity. Qed.

Lemma zero_mint_is_unresolved_witness :
  processTransfer decimals plain missThenZero
    = Done (Err "could not determine token mint")
  ∧ processTransfer decimals plain otherAccount
    = processTransfer decimals plain missThenZero.
Proof.
  destruct (proj2 (zero_mint_is_unresolved splToken splToken2022 decimals
                     (key xa1) (key xa2) missThenZero)
              [{| AccountIndex := 6; BalanceMint := mintB;
                  Owner := Some signer |}]
              {| AccountIndex := 2; BalanceMint := zeroPublicKey;
                 Owner := Some signer |} [] plain)
    as (Hp & _ & Hsame).
  - reflexivity.
  - apply Forall_cons_2; [| apply Forall_nil_2].
    apply other_account_misses. reflexivity.
  - left. reflexivity.
  - reflexivity.
  - apply plain_of_sample. reflexivity.
  - split; [exact Hp |].
    apply Hsame; [reflexivity |].
    apply Forall_cons_2; [| apply Forall_nil_2].
    apply other_account_misses. reflexivity.
Defined.

(** In [strayThenZero] the first snapshot of the source records the
    all-zero mint, but a snapshot before it names an account index
    outside the table: the transfer is not skipped, the decoder
    panics. *)
Lemma zero_mint_unresolved_unconditional_fails :
  ¬ zero_mint_unresolved_unconditional splToken decimals strayThenZero plain
      (key xa1) (key xa2).
Proof.
  intros H.
  specialize (H [{| AccountIndex := 12; BalanceMint := mintA;
                    Owner := Some signer |}]
                {| AccountIndex := 2; BalanceMint := zeroPublicKey;
                   Owner := Some signer |} []).
  assert (Hp : processTransfer decimals plain strayThenZero
               = Done (Err "could not determine token mint")).
  { apply H.
    - reflexivity.
    - apply Forall_cons_2; [| apply Forall_nil_2].
      intros [E | E]; vm_compute in E; discriminate E.
    - left. reflexivity.
    - reflexivity.
    - apply plain_of_sample. reflexivity. }
  vm_compute in Hp. discriminate Hp.
Qed.


Lemma classifiers_exclusive_witness :
  isRaydiumTransfer splToken plain keyTable = Done true
  ∧ isRaydiumTransferChecked splToken splToken2022 plain keyTable
    = Done false
  ∧ isRaydiumTransferChecked splToken splToken2022 checked keyTable
    = Done true
  ∧ isRaydiumTransfer splToken checked keyTable = Done false.
Proof.
  assert (H1 : isRaydiumTransfer splToken plain keyTable = Done true)
    by (vm_compute; reflexivity).
  assert (H2 : isRaydiumTransferChecked splToken splToken2022 checked
                 keyTable = Done true) by (vm_compute; reflexivity).
  split; [exact H1 |]. split; [| split; [exact H2 |]].
  - exact (proj1 (classifiers_exclusive splToken splToken2022 plain
                    keyTable) H1).
  - exact (proj2 (classifiers_exclusive splToken splToken2022 checked
                    keyTable) H2).
Defined.

Lemma tiny_is_short : short_instruction tiny.
Proof. left. simpl. lia. Defined.

Lemma unrelated_instructions_skipped_witness :
  short_instruction tiny
  ∧ rangeM (innerBody splToken splToken2022 decimals swapContext)
      ([plain] ++ tiny :: [checked]) ([], [])
    = rangeM (innerBody splToken splToken2022 decimals swapContext)
        ([plain] ++ [checked]) ([], []).
Proof.
  split; [exact tiny_is_short |].
  exact (unrelated_instructions_skipped splToken splToken2022 decimals
           swapContext tiny [plain] [checked] ([], [])
           (or_introl tiny_is_short)).
Defined.

Lemma matched_decoder_errors_witness :
  isRaydiumTransfer splToken plain (AccountKeys zeroMintContext) = Done true
  ∧ processTransfer decimals plain zeroMintContext
    = Done (Err "could not determine token mint")
  ∧ processTransferChecked decimals checked zeroMintContext
    ≠ Done (Err "invalid transfer checked instruction data").
Proof.
  assert (H1 : isRaydiumTransfer splToken plain (AccountKeys zeroMintContext)
               = Done true) by (vm_compute; reflexivity).
  assert (H2 : processTransfer decimals plain zeroMintContext
               = Done (Err "could not determine token mint"))
    by (vm_compute; reflexivity).
  split; [exact H1 |]. split; [exact H2 |].
  apply (proj2 (matched_decoder_errors splToken splToken2022 decimals
                  checked zeroMintContext
                  "invalid transfer checked instruction data")).
  vm_compute. reflexivity.
Defined.

Lemma plain_mint_from_snapshot_witness :
  processTransfer decimals plain swapContext = Done (Ok tokA)
  ∧ Mint tokA ≠ zeroPublicKey.
Proof.
  assert (H : processTransfer decimals plain swapContext = Done (Ok tokA))
    by (vm_compute; reflexivity).
  split; [exact H |].
  exact (proj1 (plain_mint_from_snapshot decimals plain swapContext tokA H)).
Defined.

Lemma resolver_outcomes_witness :
  findTokenMint (key xa1) (key xa2) swapContext = Done mintA
  ∧ (mintA = zeroPublicKey
     ∨ ∃ b, b ∈ userOwnsA ++ []
            ∧ touches swapContext (key xa1) (key xa2) b
            ∧ BalanceMint b = mintA)
  ∧ findTokenMint (key xa1) (key xa2) strayBalance = Panic.
Proof.
  assert (H : findTokenMint (key xa1) (key xa2) swapContext = Done mintA)
    by (vm_compute; reflexivity).
  split; [exact H |]. split.
  - exact (proj2 (resolver_outcomes (key xa1) (key xa2) swapContext)
             mintA H).
  - apply (proj1 (resolver_outcomes (key xa1) (key xa2) strayBalance)).
    exists [], {| AccountIndex := 12; BalanceMint := mintA; Owner := Some signer |},
      [].
    split; [reflexivity |]. split; [apply Forall_nil_2 | reflexivity].
Defined.

Lemma owner_known_B : owner_known swapContext (Mint tokB).
Proof. intros b Hb. vm_compute in Hb. discriminate Hb. Defined.

Lemma assembler_order_witness :
  Mint tokA ≠ Mint tokB
  ∧ owner_known swapContext (Mint tokA)
  ∧ owner_known swapContext (Mint tokB)
  ∧ first_owner_signs swapContext (Mint tokA)
    ≠ first_owner_signs swapContext (Mint tokB)
  ∧ buildSwapInfo tokA tokB swapContext = buildSwapInfo tokB tokA swapContext.
Proof.
  assert (H : first_owner_signs swapContext (Mint tokA)
              ≠ first_owner_signs swapContext (Mint tokB)).
  { intros E. vm_compute in E. discriminate E. }
  split; [exact mints_A_B_differ |].
  split; [exact owner_known_swapContext |].
  split; [exact owner_known_B |]. split; [exact H |].
  exact (proj2 (assembler_order tokA tokB swapContext mints_A_B_differ
                  owner_known_swapContext owner_known_B) H).
Defined.

Lemma assembler_default_orientation_witness :
  Mint tokA ≠ Mint tokB
  ∧ Signers unsigned = []
  ∧ buildSwapInfo tokA tokB unsigned = Done (Ok swapBA).
Proof.
  split; [exact mints_A_B_differ |]. split; [reflexivity |].
  exact (assembler_default_orientation tokA tokB unsigned mints_A_B_differ
           (or_introl eq_refl)).
Defined.

Lemma sample_parse :
  ParseInstruction splToken splToken2022 decimals outer 0 swapContext
  = Done (Ok [swapAB]).
Proof. vm_compute. reflexivity. Defined.

Lemma sample_member : swapAB ∈ [swapAB].
Proof. apply elem_of_cons. left. reflexivity. Defined.

Lemma swap_sides_are_decoded_witness :
  ParseInstruction splToken splToken2022 decimals outer 0 swapContext
    = Done (Ok [swapAB])
  ∧ swapAB ∈ [swapAB]
  ∧ Protocol swapAB = SwapTypeRaydium.
Proof.
  split; [exact sample_parse |]. split; [exact sample_member |].
  exact (proj1 (swap_sides_are_decoded splToken splToken2022 decimals
                  outer 0 swapContext [swapAB] swapAB
                  sample_parse sample_member)).
Defined.

Lemma swap_count_bounds_witness :
  ParseInstruction splToken splToken2022 decimals outer 0 fiveAndOne
    = Done (Ok [swapAC])
  ∧ max_swaps 0 fiveAndOne = 2%nat
  ∧ (1 ≤ length [swapAC] ≤ max_swaps 0 fiveAndOne)%nat.
Proof.
  assert (H : ParseInstruction splToken splToken2022 decimals outer 0
                fiveAndOne = Done (Ok [swapAC]))
    by (vm_compute; reflexivity).
  split; [exact H |]. split; [vm_compute; reflexivity |].
  exact (swap_count_bounds splToken splToken2022 decimals outer 0
           fiveAndOne [swapAC] H).
Defined.

Lemma decode_depends_on_low_index_bits_witness :
  0 mod 65536 = 65536 mod 65536
  ∧ ParseInstruction splToken splToken2022 decimals outer 0 swapContext
    = ParseInstruction splToken splToken2022 decimals plain 65536 swapContext.
Proof.
  split; [reflexivity |].
  exact (decode_depends_on_low_index_bits splToken splToken2022 decimals
           outer plain 0 65536 swapContext eq_refl).
Defined.

Lemma pending_transfer_invariant_witness :
  rangeM (innerBody splToken splToken2022 decimals swapContext)
    [plain; checked; plain] ([], []) = Done ([swapAB], [tokA])
  ∧ (length [tokA] ≤ 1)%nat.
Proof.
  assert (H : rangeM (innerBody splToken splToken2022 decimals swapContext)
                [plain; checked; plain] ([], []) = Done ([swapAB], [tokA]))
    by (vm_compute; reflexivity).
  split; [exact H |].
  exact (proj1 (pending_transfer_invariant splToken splToken2022 decimals
                  swapContext [plain; checked; plain] [] [swapAB] [] [tokA]
                  (Nat.le_0_l 1) H)).
Defined.

Lemma sample_in_table : context_in_table 0 swapContext.
Proof.
  split.
  - vm_compute. apply Forall_cons_2; [| apply Forall_nil_2].
    apply Forall_cons_2; [| apply Forall_cons_2; [| apply Forall_nil_2]].
    + split; [lia |]. repeat (apply Forall_cons_2; [lia |]).
      apply Forall_nil_2.
    + split; [lia |]. repeat (apply Forall_cons_2; [lia |]).
      apply Forall_nil_2.
  - vm_compute. apply Forall_cons_2; [lia | apply Forall_nil_2].
Defined.

Lemma sample_owners :
  Signers swapContext = []
  ∨ Forall (λ b, is_Some (Owner b)) (PreTokenBalances (Meta swapContext)).
Proof.
  right. apply Forall_cons_2; [| apply Forall_nil_2].
  eexists. reflexivity.
Defined.

Lemma decode_returns_in_table_witness :
  context_in_table 0 swapContext
  ∧ (Signers swapContext = []
     ∨ Forall (λ b, is_Some (Owner b))
         (PreTokenBalances (Meta swapContext)))
  ∧ ∃ r, ParseInstruction splToken splToken2022 decimals outer 0 swapContext
         = Done r.
Proof.
  split; [exact sample_in_table |]. split; [exact sample_owners |].
  exact (decode_returns_in_table splToken splToken2022 decimals outer 0
           swapContext sample_in_table sample_owners).
Defined.

Lemma decoders_ignore_the_rest_witness :
  take 9 (Data checked) = take 9 (Data checkedWide)
  ∧ take 2 (Accounts checked) = take 2 (Accounts checkedWide)
  ∧ processTransferChecked decimals checked swapContext
    = processTransferChecked decimals checkedWide swapContext.
Proof.
  split; [reflexivity |]. split; [reflexivity |].
  exact (proj2 (decoders_ignore_the_rest decimals checked checkedWide
                  swapContext eq_refl eq_refl)).
Defined.


Lemma amount_determines_bytes_witness :
  processTransfer decimals plain swapContext = Done (Ok tokA)
  ∧ processTransferChecked decimals checked swapContext = Done (Ok tokB)
  ∧ (Amount tokA = Amount tokB ↔
     amount_bytes (Data plain) = amount_bytes (Data checked)).
Proof.
  assert (H1 : processTransfer decimals plain swapContext = Done (Ok tokA))
    by (vm_compute; reflexivity).
  assert (H2 : processTransferChecked decimals checked swapContext
               = Done (Ok tokB)) by (vm_compute; reflexivity).
  split; [exact H1 |]. split; [exact H2 |].
  exact (amount_determines_bytes decimals plain checked swapContext
           swapContext tokA tokB (or_introl H1) (or_intror H2)).
Defined.

End Checks.
